(** * fly-over-gent: the DXF to STL geometry extraction of
    [pre-processing/dxf_to_stl_3dface.py]

    A shallow embedding of the function [dxf_to_stl_3dface]: the three
    extraction loops (direct 3DFACE entities, 3DFACE entities nested in the
    block of an INSERT, POLYLINE polyface meshes), the per-face duplicate
    check, the running buffers [all_vertices] / [all_faces] /
    [vertex_offset], the four counters and the final emptiness test.

    Conventions of the embedding.
    - A Python float is an IEEE 754 binary64 number; coordinates are the
      kernel's primitive floats, which are binary64 numbers with the same
      rounding, infinities and NaN, and a decimal literal such as 0.001
      denotes the nearest binary64 number in both.
    - The parsed document comes from the ezdxf library.  An entity is a
      record of attribute states: an attribute is absent ([hasattr] is
      false), raises when read, or holds a value that may be Python's
      [None].
    - [try: ... except Exception] is modelled by a state-and-exception
      monad in which the mutations made before a raise persist, as they do
      in Python.
    - The calls the source makes outside a [try] block ([entity.dxf.name],
      [doc.blocks.get], [entity.matrix44()], [entity.is_poly_face_mesh],
      the [query] iterations) are taken to return normally, and a transform
      maps a point to a point.
    - Printing is not modelled.

    After the conversion, the file embeds the entity analysis of
    [inspect_dwg.py], the result handling of [batch_dxf_to_stl.py] and the
    tile loop of [download_gent_data.py]; the file system, the network and
    the process pool are parameters of these parts. *)

From Stdlib Require Import Floats Ascii.
From stdpp Require Import gmap strings list.

Local Open Scope nat_scope.

(** ** Coordinates *)

(* decimal literals are rounded to the nearest binary64 number, as in Python *)
#[local] Set Warnings "-inexact-float".

Module Vec3.
(** A point object of the document library: [pt.x], [pt.y], [pt.z]. *)
Record t : Type := mk { x : float; y : float; z : float }.
End Vec3.

(** A mesh vertex is the three-element list [[x, y, z]] of the source. *)
Definition vertex : Type := (float * float * float)%type.

(** [[pt.x, pt.y, pt.z]] *)
Definition coords (pt : Vec3.t) : vertex := (Vec3.x pt, Vec3.y pt, Vec3.z pt).

(** ** Attribute access on a DXF namespace *)

Inductive attr (A : Type) : Type :=
  | Absent                  (* hasattr(obj, name) is False *)
  | Raising                 (* reading the attribute raises an exception *)
  | Present (v : option A). (* getattr(obj, name) returns v; [None] is Python's None *)
Arguments Absent {A}.
Arguments Raising {A}.
Arguments Present {A} v.

(** ** Entities *)

Module Face.
(** [entity.dxf] of a 3DFACE. *)
Record dxf : Type := mk
  { vtx0 : attr Vec3.t; vtx1 : attr Vec3.t; vtx2 : attr Vec3.t; vtx3 : attr Vec3.t }.

(** The attributes read by [for attr in ['vtx0', 'vtx1', 'vtx2', 'vtx3']]. *)
Definition attrs (e : dxf) : list (attr Vec3.t) := [vtx0 e; vtx1 e; vtx2 e; vtx3 e].
End Face.

Module Vertex.
(** [vertex.dxf] of a sub-record of a POLYLINE. *)
Record dxf : Type := mk
  { location : attr Vec3.t;
    vtx0 : attr Z; vtx1 : attr Z; vtx2 : attr Z; vtx3 : attr Z }.

Definition attrs (v : dxf) : list (attr Z) := [vtx0 v; vtx1 v; vtx2 v; vtx3 v].
End Vertex.

Module Insert.
(** An INSERT: [entity.dxf.name] and the transform of [entity.matrix44()]. *)
Record t : Type := mk { name : string; matrix44 : Vec3.t -> Vec3.t }.
End Insert.

Module Polyline.
Record t : Type := mk { is_poly_face_mesh : bool; vertices : list Vertex.dxf }.
End Polyline.

Inductive entity : Type :=
  | E3DFACE (f : Face.dxf)
  | EINSERT (i : Insert.t)
  | EPOLYLINE (p : Polyline.t)
  | EOTHER (kind : string).

Definition dxftype (e : entity) : string :=
  match e with
  | E3DFACE _ => "3DFACE"
  | EINSERT _ => "INSERT"
  | EPOLYLINE _ => "POLYLINE"
  | EOTHER k => k
  end.

(** [layout.query('3DFACE')], [msp.query('INSERT')], [msp.query('POLYLINE')]:
    the entities of one kind, in document order. *)
Definition query_3DFACE (l : list entity) : list Face.dxf :=
  omap (fun e => match e with E3DFACE f => Some f | _ => None end) l.
Definition query_INSERT (l : list entity) : list Insert.t :=
  omap (fun e => match e with EINSERT i => Some i | _ => None end) l.
Definition query_POLYLINE (l : list entity) : list Polyline.t :=
  omap (fun e => match e with EPOLYLINE p => Some p | _ => None end) l.

Record Document : Type := mkDocument
  { modelspace : list entity;               (* doc.modelspace() *)
    blocks : gmap string (list entity) }.   (* doc.blocks *)

(** ** The running state of one conversion *)

Record St : Type := mkSt
  { all_vertices : list vertex;
    all_faces : list (list nat);
    vertex_offset : nat;
    valid_3dface : nat;
    invalid_3dface : nat;
    valid_polyline : nat;
    invalid_polyline : nat;
    (* ghost, never read by the program: [len(all_vertices)] at the moment
       of each [all_faces.append], one entry per face *)
    face_log : list nat }.

Definition init : St := mkSt [] [] 0 0 0 0 0 [].

(** [all_vertices.extend(vs)] *)
Definition extend_vertices (vs : list vertex) (s : St) : St :=
  mkSt (all_vertices s ++ vs) (all_faces s) (vertex_offset s)
       (valid_3dface s) (invalid_3dface s) (valid_polyline s) (invalid_polyline s)
       (face_log s).

(** [all_faces.append(f)] *)
Definition append_face (f : list nat) (s : St) : St :=
  mkSt (all_vertices s) (all_faces s ++ [f]) (vertex_offset s)
       (valid_3dface s) (invalid_3dface s) (valid_polyline s) (invalid_polyline s)
       (face_log s ++ [length (all_vertices s)]).

(** [vertex_offset += n] *)
Definition advance_offset (n : nat) (s : St) : St :=
  mkSt (all_vertices s) (all_faces s) (vertex_offset s + n)
       (valid_3dface s) (invalid_3dface s) (valid_polyline s) (invalid_polyline s)
       (face_log s).

(** [valid_3dface += 1] *)
Definition incr_valid_3dface (s : St) : St :=
  mkSt (all_vertices s) (all_faces s) (vertex_offset s)
       (valid_3dface s + 1) (invalid_3dface s) (valid_polyline s) (invalid_polyline s)
       (face_log s).

(** [invalid_3dface += 1] *)
Definition incr_invalid_3dface (s : St) : St :=
  mkSt (all_vertices s) (all_faces s) (vertex_offset s)
       (valid_3dface s) (invalid_3dface s + 1) (valid_polyline s) (invalid_polyline s)
       (face_log s).

(** [valid_polyline += 1] *)
Definition incr_valid_polyline (s : St) : St :=
  mkSt (all_vertices s) (all_faces s) (vertex_offset s)
       (valid_3dface s) (invalid_3dface s) (valid_polyline s + 1) (invalid_polyline s)
       (face_log s).

(** [invalid_polyline += 1] *)
Definition incr_invalid_polyline (s : St) : St :=
  mkSt (all_vertices s) (all_faces s) (vertex_offset s)
       (valid_3dface s) (invalid_3dface s) (valid_polyline s) (invalid_polyline s + 1)
       (face_log s).

(** ** State and exception monad

    [M A] is a statement block: it runs from a state and either completes
    with a value or raises ([None]); in both cases the state reached is
    returned, so what was mutated before a raise stays mutated. *)

Definition M (A : Type) : Type := St -> option A * St.

#[global] Instance M_ret : MRet M := fun A a s => (Some a, s).
#[global] Instance M_bind : MBind M := fun A B f m s =>
  match m s with
  | (Some a, s') => f a s'
  | (None, s') => (None, s')
  end.

(** Read the state. *)
Definition gets {A : Type} (f : St -> A) : M A := fun s => (Some (f s), s).
(** Mutate the state. *)
Definition modify (f : St -> St) : M unit := fun s => (Some tt, f s).
(** A pure computation that may raise. *)
Definition lift {A : Type} (o : option A) : M A := fun s => (o, s).
(** [try: body  except Exception: handler] *)
Definition try_except (body handler : M unit) : M unit := fun s =>
  match body s with
  | (Some _, s') => (Some tt, s')
  | (None, s') => handler s'
  end.
(** [for x in l: body x] *)
Fixpoint for_each {A : Type} (l : list A) (body : A -> M unit) : M unit :=
  match l with
  | [] => mret tt
  | a :: rest => body a;; for_each rest body
  end.

(** ** Duplicate check within one face (source lines 101-110 and 173-182) *)

(** [abs(v[0]-uv[0]) < 0.001 and abs(v[1]-uv[1]) < 0.001 and abs(v[2]-uv[2]) < 0.001] *)
Definition within_tol (v uv : vertex) : bool :=
  PrimFloat.ltb (PrimFloat.abs (v.1.1 - uv.1.1)) 0.001
  && PrimFloat.ltb (PrimFloat.abs (v.1.2 - uv.1.2)) 0.001
  && PrimFloat.ltb (PrimFloat.abs (v.2 - uv.2)) 0.001.

(** The inner loop: [is_duplicate] after scanning [unique_verts]. *)
Definition is_duplicate (v : vertex) (unique_verts : list vertex) : bool :=
  existsb (within_tol v) unique_verts.

(** One turn of the outer loop. *)
Definition dedup_step (unique_verts : list vertex) (v : vertex) : list vertex :=
  if is_duplicate v unique_verts then unique_verts else unique_verts ++ [v].

(** [unique_verts] after the loop over [vertices], starting from [[]]. *)
Definition dedup (vertices : list vertex) : list vertex :=
  fold_left dedup_step vertices [].

(** ** Direct 3DFACE entities (source lines 88-133) *)

(** The loop over ['vtx0', 'vtx1', 'vtx2', 'vtx3'] that fills [vertices]. *)
Fixpoint collect_corners (attrs : list (attr Vec3.t)) (vertices : list vertex)
  : option (list vertex) :=
  match attrs with
  | [] => Some vertices
  | Absent :: rest => collect_corners rest vertices
  | Raising :: rest => None
  | Present None :: rest => collect_corners rest vertices
  | Present (Some pt) :: rest => collect_corners rest (vertices ++ [coords pt])
  end.

(** The body of the [try] block, once [vertices] has been collected
    (the same statements at lines 99-128 and 171-200). *)
Definition add_face (vertices : list vertex) : M unit :=
  if 3 <=? length vertices then
    let unique_verts := dedup vertices in
    if 3 <=? length unique_verts then
      start_idx ← gets (fun s => length (all_vertices s));
      modify (extend_vertices unique_verts);;
      (if length unique_verts =? 3 then
         modify (append_face [start_idx; start_idx + 1; start_idx + 2])
       else
         modify (append_face [start_idx; start_idx + 1; start_idx + 2]);;
         modify (append_face [start_idx; start_idx + 2; start_idx + 3]));;
      modify incr_valid_3dface
    else modify incr_invalid_3dface
  else modify incr_invalid_3dface.

(** One turn of [for entity in msp.query('3DFACE')]. *)
Definition process_3dface (entity : Face.dxf) : M unit :=
  try_except
    (vertices ← lift (collect_corners (Face.attrs entity) []);
     add_face vertices)
    (modify incr_invalid_3dface).

(** ** 3DFACE entities inside the block of an INSERT (source lines 140-203) *)

(** The attribute loop with [insert_matrix.transform(pt)] applied. *)
Fixpoint collect_block_corners (insert_matrix : Vec3.t -> Vec3.t)
    (attrs : list (attr Vec3.t)) (vertices : list vertex) : option (list vertex) :=
  match attrs with
  | [] => Some vertices
  | Absent :: rest => collect_block_corners insert_matrix rest vertices
  | Raising :: rest => None
  | Present None :: rest => collect_block_corners insert_matrix rest vertices
  | Present (Some pt) :: rest =>
      let transformed := insert_matrix pt in
      collect_block_corners insert_matrix rest (vertices ++ [coords transformed])
  end.

(** One turn of [for block_entity in block.query('3DFACE')]. *)
Definition process_block_3dface (insert_matrix : Vec3.t -> Vec3.t)
    (block_entity : Face.dxf) : M unit :=
  try_except
    (vertices ← lift (collect_block_corners insert_matrix (Face.attrs block_entity) []);
     add_face vertices)
    (modify incr_invalid_3dface).

(** One turn of [for entity in msp.query('INSERT')]. *)
Definition process_insert (doc : Document) (entity : Insert.t) : M unit :=
  let block_name := Insert.name entity in
  match blocks doc !! block_name with
  | None => mret tt                                   (* continue *)
  | Some block =>
      let insert_matrix := Insert.matrix44 entity in
      for_each (query_3DFACE block) (process_block_3dface insert_matrix)
  end.

(** ** POLYLINE polyface meshes (source lines 216-260) *)

(** [for i, vertex in enumerate(vertex_list)]: fills [vertices] and
    [vertex_map]; [loc.x] raises when [loc] is None. *)
Fixpoint collect_locations (i : nat) (vertex_list : list Vertex.dxf)
    (vertices : list vertex) (vertex_map : gmap nat nat)
  : option (list vertex * gmap nat nat) :=
  match vertex_list with
  | [] => Some (vertices, vertex_map)
  | vertex :: rest =>
      match Vertex.location vertex with
      | Absent => collect_locations (S i) rest vertices vertex_map
      | Raising => None
      | Present None => None
      | Present (Some loc) =>
          let vertex_idx := length vertices in
          collect_locations (S i) rest
            (vertices ++ [coords loc]) (<[i := vertex_idx]> vertex_map)
      end
  end.

(** The loop over ['vtx0', 'vtx1', 'vtx2', 'vtx3'] of one face record
    that fills [face_indices]. *)
Fixpoint resolve_indices (vertex_map : gmap nat nat) (vertex_offset : nat)
    (attrs : list (attr Z)) (face_indices : list nat) : option (list nat) :=
  match attrs with
  | [] => Some face_indices
  | Absent :: rest => resolve_indices vertex_map vertex_offset rest face_indices
  | Raising :: rest => None
  | Present None :: rest => resolve_indices vertex_map vertex_offset rest face_indices
  | Present (Some idx) :: rest =>
      if (idx =? 0)%Z then resolve_indices vertex_map vertex_offset rest face_indices
      else
        let actual_idx := (Z.abs idx - 1)%Z in
        match vertex_map !! Z.to_nat actual_idx with
        | Some vertex_idx =>
            resolve_indices vertex_map vertex_offset rest
              (face_indices ++ [vertex_idx + vertex_offset])
        | None => resolve_indices vertex_map vertex_offset rest face_indices
        end
  end.

(** [l[i]]: raises IndexError out of range. *)
Definition index (l : list nat) (i : nat) : M nat := lift (l !! i).

(** One turn of the second [for vertex in vertex_list]. *)
Definition extract_face (vertex_map : gmap nat nat) (vertex : Vertex.dxf) : M unit :=
  match Vertex.vtx0 vertex with
  | Absent => mret tt
  | Raising => lift None
  | Present _ =>
      offset ← gets vertex_offset;
      face_indices ← lift (resolve_indices vertex_map offset (Vertex.attrs vertex) []);
      if 3 <=? length face_indices then
        if length face_indices =? 3 then modify (append_face face_indices)
        else if length face_indices =? 4 then
          a ← index face_indices 0; b ← index face_indices 1; c ← index face_indices 2;
          modify (append_face [a; b; c]);;
          a ← index face_indices 0; c ← index face_indices 2; d ← index face_indices 3;
          modify (append_face [a; c; d])
        else mret tt
      else mret tt
  end.

(** The body of the [try] block of one polyface mesh. *)
Definition decode_polyface (entity : Polyline.t) : M unit :=
  modify incr_valid_polyline;;
  let vertex_list := Polyline.vertices entity in
  '(vertices, vertex_map) ← lift (collect_locations 0 vertex_list [] ∅);
  for_each vertex_list (extract_face vertex_map);;
  modify (extend_vertices vertices);;
  modify (advance_offset (length vertices)).

(** One turn of [for entity in msp.query('POLYLINE')]. *)
Definition process_polyline (entity : Polyline.t) : M unit :=
  if Polyline.is_poly_face_mesh entity then
    try_except (decode_polyface entity) (modify incr_invalid_polyline)
  else mret tt.

(** ** The whole extraction and the final test (source lines 53-279) *)

(** [entity_counts] after the counting loop. *)
Definition count_entities (msp : list entity) : gmap string nat :=
  fold_left
    (fun entity_counts entity =>
       let etype := dxftype entity in
       <[etype := default 0 (entity_counts !! etype) + 1]> entity_counts)
    msp ∅.

Definition direct_pipeline (doc : Document) : M unit :=
  for_each (query_3DFACE (modelspace doc)) process_3dface.

Definition block_pipeline (doc : Document) : M unit :=
  let insert_count := default 0 (count_entities (modelspace doc) !! "INSERT") in
  if 0 <? insert_count then
    for_each (query_INSERT (modelspace doc)) (process_insert doc)
  else mret tt.

Definition polyface_pipeline (doc : Document) : M unit :=
  let polyline_count := default 0 (count_entities (modelspace doc) !! "POLYLINE") in
  if 0 <? polyline_count then
    for_each (query_POLYLINE (modelspace doc)) process_polyline
  else mret tt.

Definition extract_geometry (doc : Document) : M unit :=
  direct_pipeline doc;; block_pipeline doc;; polyface_pipeline doc.

(** What [dxf_to_stl_3dface] does once the document is loaded, up to the
    point where the buffers are turned into arrays for the mesh library. *)
Inductive outcome : Type :=
  | NoGeometry (s : St)   (* raise RuntimeError("No valid 3D geometry found! ...") *)
  | Escaped (s : St)      (* an exception left one of the three loops *)
  | Mesh (vertices_array : list vertex) (faces_array : list (list nat)) (s : St).

Definition dxf_to_stl_3dface (doc : Document) : outcome :=
  match extract_geometry doc init with
  | (None, s) => Escaped s
  | (Some _, s) =>
      if (length (all_vertices s) =? 0) || (length (all_faces s) =? 0)
      then NoGeometry s
      else Mesh (all_vertices s) (all_faces s) s
  end.

(** * Vocabulary of the statements *)

(** What accepting a face with unique corners [u] does to the state: the
    corners go behind the vertices already there, one triangle (three
    corners) or the fan of two triangles (four corners) goes behind the faces
    already there, index [n + k] of the buffer holds corner [k], and only the
    valid face counter moves. *)
Definition face_appended (u : list vertex) (s s' : St) : Prop :=
  let n := length (all_vertices s) in
  all_vertices s' = all_vertices s ++ u /\
  ((length u = 3 /\ all_faces s' = all_faces s ++ [[n; n + 1; n + 2]]) \/
   (length u = 4 /\
    all_faces s' = all_faces s ++ [[n; n + 1; n + 2]; [n; n + 2; n + 3]])) /\
  (forall k, k < length u -> all_vertices s' !! (n + k) = u !! k) /\
  valid_3dface s' = valid_3dface s + 1 /\
  invalid_3dface s' = invalid_3dface s /\
  valid_polyline s' = valid_polyline s /\
  invalid_polyline s' = invalid_polyline s /\
  vertex_offset s' = vertex_offset s.

(** What rejecting a face does: the buffers stay, the invalid face counter
    moves by one. *)
Definition face_rejected (s s' : St) : Prop :=
  all_vertices s' = all_vertices s /\
  all_faces s' = all_faces s /\
  invalid_3dface s' = invalid_3dface s + 1 /\
  valid_3dface s' = valid_3dface s /\
  valid_polyline s' = valid_polyline s /\
  invalid_polyline s' = invalid_polyline s /\
  vertex_offset s' = vertex_offset s.


(** Two vertices with the same coordinates. *)
Definition vertex_equiv (v w : vertex) : Prop :=
  v.1.1 = w.1.1 /\ v.1.2 = w.1.2 /\ v.2 = w.2.

(** The same conversion state, vertices compared with [vertex_equiv]. *)
Definition St_equiv (s t : St) : Prop :=
  Forall2 vertex_equiv (all_vertices s) (all_vertices t) /\
  all_faces s = all_faces t /\
  vertex_offset s = vertex_offset t /\
  valid_3dface s = valid_3dface t /\
  invalid_3dface s = invalid_3dface t /\
  valid_polyline s = valid_polyline t /\
  invalid_polyline s = invalid_polyline t /\
  face_log s = face_log t.

(** The point [pt] moved by (dx, dy, dz). *)
Definition translate (dx dy dz : float) (pt : Vec3.t) : Vec3.t :=
  Vec3.mk (Vec3.x pt + dx) (Vec3.y pt + dy) (Vec3.z pt + dz).

(** [insert_matrix] is a pure translation by (dx, dy, dz). *)
Definition is_translation (insert_matrix : Vec3.t -> Vec3.t) (dx dy dz : float) : Prop :=
  forall pt, vertex_equiv (coords (insert_matrix pt)) (coords (translate dx dy dz pt)).

(** A corner attribute, and a face, with every corner moved by (dx, dy, dz). *)
Definition shift_attr (dx dy dz : float) (a : attr Vec3.t) : attr Vec3.t :=
  match a with
  | Present (Some pt) => Present (Some (translate dx dy dz pt))
  | other => other
  end.
Definition shift_face (dx dy dz : float) (e : Face.dxf) : Face.dxf :=
  Face.mk (shift_attr dx dy dz (Face.vtx0 e)) (shift_attr dx dy dz (Face.vtx1 e))
          (shift_attr dx dy dz (Face.vtx2 e)) (shift_attr dx dy dz (Face.vtx3 e)).

(** The vertex that the first loop over the sub-records of a polyface mesh
    collects from a record, if any. *)
Definition record_vertex (r : Vertex.dxf) : option vertex :=
  match Vertex.location r with
  | Present (Some loc) => Some (coords loc)
  | _ => None
  end.

(** The local vertex table of a sub-record list: the collected vertices, in
    record order. *)
Definition vertex_table (vertex_list : list Vertex.dxf) : list vertex :=
  omap record_vertex vertex_list.

(** [all_faces.append(t)] for each [t] of [ts], in order. *)
Definition append_faces (ts : list (list nat)) (s : St) : St :=
  fold_left (fun s t => append_face t s) ts s.

(** A triangle that is well formed when [n] vertices have been appended:
    three pairwise distinct indices, each below [n]. *)
Definition triangle_ok (n : nat) (t : list nat) : Prop :=
  length t = 3 /\ NoDup t /\ Forall (fun i => i < n) t.

(** Every face was well formed for the vertex buffer as it was at the moment
    the face was appended. *)
Definition log_ok (s : St) : Prop :=
  Forall2 (fun t n => triangle_ok n t) (all_faces s) (face_log s).

(** Every index of every face points into the present vertex buffer. *)
Definition in_range (s : St) : Prop :=
  Forall (Forall (fun i => i < length (all_vertices s))) (all_faces s).

(** The rule of the specification for one face index, to compare the
    source's [resolve_indices] with: a zero index resolves to nothing, a
    non-zero index [idx] resolves to the ordinal [abs(idx) - 1] of the local
    vertex table, shifted by the captured offset, when the table has that
    entry. *)
Definition spec_resolve_index (table : list vertex) (vertex_offset : nat) (idx : Z)
  : option nat :=
  if (idx =? 0)%Z then None
  else
    let k := Z.to_nat (Z.abs idx - 1) in
    if decide (k < length table) then Some (k + vertex_offset) else None.

(** * Sample entities and documents *)

Definition point (a b c : float) : attr Vec3.t := Present (Some (Vec3.mk a b c)).

(** Four distinct planar corners. *)
Definition quad_face : Face.dxf :=
  Face.mk (point 0 0 0) (point 1 0 0) (point 1 1 0) (point 0 1 0).
(** Three corners, the fourth attribute absent. *)
Definition tri_face : Face.dxf :=
  Face.mk (point 0 0 0) (point 1 0 0) (point 0 1 0) Absent.
(** Three present corners of which two lie within the tolerance. *)
Definition sliver_face : Face.dxf :=
  Face.mk (point 0 0 0) (point 0.0005 0 0) (point 0 1 0) Absent.
(** Two present corners. *)
Definition two_corner_face : Face.dxf :=
  Face.mk (point 0 0 0) (point 1 0 0) Absent (Present None).

(** A sub-record of a polyface mesh that carries a coordinate. *)
Definition coordinate_record (loc : Vec3.t) : Vertex.dxf :=
  Vertex.mk (Present (Some loc)) Absent Absent Absent Absent.
(** A sub-record that carries four face indices. *)
Definition face_record (a b c d : Z) : Vertex.dxf :=
  Vertex.mk Absent (Present (Some a)) (Present (Some b)) (Present (Some c))
            (Present (Some d)).

(** Scenario B of the specification: one INSERT at (100, 200, 0) of a block
    that holds one three-corner face. *)
Definition scenario_B : Document :=
  mkDocument [EINSERT (Insert.mk "B" (translate 100 200 0))]
             (<["B" := [E3DFACE tri_face]]> ∅).

(** A polyface mesh of three coordinate records and one face record. *)
Definition small_polyface : Polyline.t :=
  Polyline.mk true
    [coordinate_record (Vec3.mk 5 5 5); coordinate_record (Vec3.mk 6 5 5);
     coordinate_record (Vec3.mk 5 6 5); face_record 1 2 3 0].

(** One direct face followed by one polyface mesh. *)
Definition mixed_doc : Document :=
  mkDocument [E3DFACE tri_face; EPOLYLINE small_polyface] ∅.

(** A polyface mesh whose first sub-record has the location None, so that
    [loc.x] raises; in [raising_doc] it is followed by a well-formed mesh. *)
Definition raising_polyface : Polyline.t :=
  Polyline.mk true
    [Vertex.mk (Present None) Absent Absent Absent Absent; face_record 1 2 3 0].
Definition raising_doc : Document :=
  mkDocument [EPOLYLINE raising_polyface; EPOLYLINE small_polyface] ∅.

(** A polyface mesh with a face record that names one vertex twice. *)
Definition repeated_index_doc : Document :=
  mkDocument
    [EPOLYLINE
       (Polyline.mk true
          [coordinate_record (Vec3.mk 5 5 5); coordinate_record (Vec3.mk 6 5 5);
           coordinate_record (Vec3.mk 5 6 5);
           face_record 1 1 2 0; face_record 1 2 3 0])] ∅.

(** A polyface mesh of coordinate records only. *)
Definition bare_polyface : Polyline.t :=
  Polyline.mk true
    [coordinate_record (Vec3.mk 5 5 5); coordinate_record (Vec3.mk 6 5 5);
     face_record 1 2 0 0].
Definition bare_doc : Document := mkDocument [EPOLYLINE bare_polyface] ∅.
Definition face_and_bare_doc : Document :=
  mkDocument [E3DFACE tri_face; EPOLYLINE bare_polyface] ∅.

(** A document whose only entity is a face that raises on corner access. *)
Definition scenario_C : Document :=
  mkDocument [E3DFACE (Face.mk Raising Absent Absent Absent)] ∅.

(** A polyface mesh whose first sub-record carries neither a coordinate nor
    face indices, followed by three coordinate records and a face record. *)
Definition leading_blank_polyface : Polyline.t :=
  Polyline.mk true
    [Vertex.mk Absent Absent Absent Absent Absent;
     coordinate_record (Vec3.mk 5 5 5); coordinate_record (Vec3.mk 6 5 5);
     coordinate_record (Vec3.mk 5 6 5); face_record 1 2 3 0].

(** * Vocabulary of the further properties *)

(** No point of the list lies within the tolerance of an earlier one. *)
Definition separated (l : list vertex) : Prop :=
  forall i j u v, i < j -> l !! i = Some u -> l !! j = Some v -> within_tol v u = false.

(** The number of 3DFACE entities that the block loop visits for one INSERT:
    those of its block, or none when the block name has no definition. *)
Definition block_faces (doc : Document) (i : Insert.t) : nat :=
  match blocks doc !! Insert.name i with
  | Some block => length (query_3DFACE block)
  | None => 0
  end.

(** The number of face entities that the two face loops visit. *)
Definition face_entities (doc : Document) : nat :=
  length (query_3DFACE (modelspace doc))
  + sum_list (block_faces doc <$> query_INSERT (modelspace doc)).

(** 1 for a POLYLINE flagged as polyface mesh, 0 otherwise. *)
Definition polyface_weight (p : Polyline.t) : nat :=
  if Polyline.is_poly_face_mesh p then 1 else 0.

(** The number of polyface meshes in the modelspace. *)
Definition polyface_entities (doc : Document) : nat :=
  sum_list (polyface_weight <$> query_POLYLINE (modelspace doc)).

(** The effect of visiting [n] face entities: [n] more faces counted, valid
    or invalid; each valid face brought two vertices more than triangles,
    and one or two triangles; the buffers grew at the end; the polyface
    offset and counters did not move. *)
Definition faces_visited (n : nat) (s s' : St) : Prop :=
  valid_3dface s' + invalid_3dface s' = valid_3dface s + invalid_3dface s + n /\
  valid_3dface s <= valid_3dface s' /\
  length (all_vertices s') + length (all_faces s) + 2 * valid_3dface s
  = length (all_vertices s) + length (all_faces s') + 2 * valid_3dface s' /\
  valid_3dface s' + length (all_faces s) <= valid_3dface s + length (all_faces s') /\
  length (all_faces s') + 2 * valid_3dface s <= length (all_faces s) + 2 * valid_3dface s' /\
  all_vertices s `prefix_of` all_vertices s' /\
  all_faces s `prefix_of` all_faces s' /\
  vertex_offset s' = vertex_offset s /\
  valid_polyline s' = valid_polyline s /\
  invalid_polyline s' = invalid_polyline s.

(** The effect of visiting [n] polyface meshes: each one counted as valid, at
    most [n] counted as invalid as well; the offset advanced by exactly the
    number of vertices appended; the buffers grew at the end; the face
    counters did not move. *)
Definition polyfaces_visited (n : nat) (s s' : St) : Prop :=
  valid_polyline s' = valid_polyline s + n /\
  invalid_polyline s <= invalid_polyline s' /\
  invalid_polyline s' <= invalid_polyline s + n /\
  length (all_vertices s') + vertex_offset s
  = length (all_vertices s) + vertex_offset s' /\
  all_vertices s `prefix_of` all_vertices s' /\
  all_faces s `prefix_of` all_faces s' /\
  valid_3dface s' = valid_3dface s /\
  invalid_3dface s' = invalid_3dface s.

(** An entity of one of the three kinds that the conversion reads. *)
Definition known (e : entity) : bool :=
  match e with EOTHER _ => false | _ => true end.

(** [mixed_doc] with entities of other kinds added and the polyface mesh
    moved in front of the face. *)
Definition shuffled_doc : Document :=
  mkDocument [EOTHER "LINE"; EPOLYLINE small_polyface; EOTHER "TEXT"; E3DFACE tri_face] ∅.

(** ** [inspect_dwg.py]: the analysis of a loaded document (lines 92-149) *)

(** [k in d] for a dictionary [d]. *)
Definition contains (d : gmap string nat) (k : string) : bool :=
  match d !! k with Some _ => true | None => false end.

(** [polyface_count] after the loop over [msp.query('POLYLINE')]. *)
Definition count_polyfaces (polylines : list Polyline.t) : nat :=
  fold_left
    (fun polyface_count entity =>
       if Polyline.is_poly_face_mesh entity then polyface_count + 1 else polyface_count)
    polylines 0.

(** The value of [has_3d] when the analysis of the entity types is over
    (line 148); [entity_types] is filled by the same counting loop as
    [entity_counts] of the converter. *)
Definition has_3d (msp : list entity) : bool :=
  let entity_types := count_entities msp in
  let has_3d := false in
  let has_3d := if contains entity_types "INSERT" then true else has_3d in
  let has_3d := if contains entity_types "3DSOLID" then true else has_3d in
  let has_3d := if contains entity_types "MESH" then true else has_3d in
  let has_3d :=
    if contains entity_types "POLYLINE" then
      let polyface_count := count_polyfaces (query_POLYLINE msp) in
      if 0 <? polyface_count then true else has_3d
    else has_3d in
  let has_3d := if contains entity_types "3DFACE" then true else has_3d in
  has_3d.

(** A face with three good corners and a fourth attribute that raises. *)
Definition raising_corner_face : Face.dxf :=
  Face.mk (point 0 0 0) (point 1 0 0) (point 0 1 0) Raising.

(** A drawing of lines, texts and an unflagged polyline. *)
Definition flat_doc : Document :=
  mkDocument [EOTHER "LINE"; EPOLYLINE (Polyline.mk false []); EOTHER "TEXT"] ∅.

(** ** [batch_dxf_to_stl.py] *)

(** Python's [s.replace(old, new)] for a non-empty [old]: the occurrences of
    [old] are found from left to right, without overlap.  [skip] counts the
    characters of a matched occurrence that are still to be passed over. *)
Fixpoint starts_with (old s : string) : bool :=
  match old, s with
  | EmptyString, _ => true
  | String a old', String b s' => if Ascii.eqb a b then starts_with old' s' else false
  | String _ _, EmptyString => false
  end.

Fixpoint replace_from (skip : nat) (old new s : string) : string :=
  match s with
  | EmptyString => EmptyString
  | String c rest =>
      match skip with
      | S k => replace_from k old new rest
      | O =>
          if starts_with old s
          then new +:+ replace_from (String.length old - 1) old new rest
          else String c (replace_from 0 old new rest)
      end
  end.

Definition replace (old new s : string) : string := replace_from 0 old new s.

(** The character [c] occurs in [s]. *)
Fixpoint has_char (c : Ascii.ascii) (s : string) : bool :=
  match s with
  | EmptyString => false
  | String b rest => Ascii.eqb c b || has_char c rest
  end.

(** [old in s]: the string [old] occurs in [s]. *)
Fixpoint occurs (old s : string) : bool :=
  starts_with old s
  || match s with
     | EmptyString => false
     | String _ rest => occurs old rest
     end.

Module Batch.

Record ConversionResult : Type := mkResult
  { input_file : string;
    success : bool;
    output_file : option string;
    error : option string }.

(** What a call of the conversion function does: it returns the path of the
    STL file, or raises an exception [e], of which [str(e)] is kept. *)
Inductive conversion : Type :=
  | Returned (stl_path : string)
  | Raised (message : string).

(** The surroundings of a batch run: the path functions and the file system
    as it is when the skip test runs, the files found by the glob, the
    conversion of one file (taken to depend on its arguments only), and the
    order in which the pool hands back the work items, which is some
    rearrangement of the order in which they were submitted. *)
Record Env : Type := mkEnv
  { os_path_join : string -> string -> string;
    os_path_basename : string -> string;
    os_path_exists : string -> bool;
    find_dxf_files : string -> string -> list string;
    convert_dxf_to_stl : string -> option string -> conversion;
    completion_order :
      list (string * bool * option string) -> list (string * bool * option string);
    completion_order_perm : forall l, completion_order l ≡ₚ l }.

(** [if output_dir:] holds for a string that is neither None nor empty. *)
Definition truthy (output_dir : option string) : bool :=
  match output_dir with
  | Some d => negb (String.eqb d "")
  | None => false
  end.

(** [name.replace('.dxf', '.stl').replace('.DXF', '.stl')] *)
Definition stl_name (name : string) : string :=
  replace ".DXF" ".stl" (replace ".dxf" ".stl" name).

Definition should_skip_file (env : Env) (dxf_file : string) (output_dir : option string)
  : bool :=
  let stl_file :=
    if truthy output_dir then
      os_path_join env (default "" output_dir) (stl_name (os_path_basename env dxf_file))
    else stl_name dxf_file in
  os_path_exists env stl_file.

Definition convert_single_file (env : Env) (args : string * bool * option string)
  : ConversionResult :=
  let '(dxf_file, verbose, output_dir) := args in
  let output_file :=
    if truthy output_dir then
      Some (os_path_join env (default "" output_dir)
              (stl_name (os_path_basename env dxf_file)))
    else None in
  match convert_dxf_to_stl env dxf_file output_file with
  | Returned output_file => mkResult dxf_file true (Some output_file) None
  | Raised e => mkResult dxf_file false None (Some e)
  end.

(** The files that a batch run converts: those found, without the ones that
    the skip test removes when [skip_existing] is set. *)
Definition files_to_convert (env : Env) (directory pattern : string)
    (skip_existing : bool) (output_dir : option string) : list string :=
  let dxf_files := find_dxf_files env directory pattern in
  if skip_existing
  then filter (fun f => should_skip_file env f output_dir = false) dxf_files
  else dxf_files.

(** The part of [batch_convert] from the pool on (lines 170-208): the
    results in the order in which they arrive, split by [success]. *)
Definition run_pool (env : Env) (verbose : bool) (output_dir : option string)
    (dxf_files : list string) : list ConversionResult * list ConversionResult :=
  let args_list := (fun f => (f, verbose, output_dir)) <$> dxf_files in
  let results := convert_single_file env <$> completion_order env args_list in
  let successful := filter (fun r => success r = true) results in
  let failed := filter (fun r => success r = false) results in
  (successful, failed).

(** [batch_convert], for a worker count that the pool accepts; the result is
    the pair [(successful, failed)]. *)
Definition batch_convert (env : Env) (directory pattern : string)
    (skip_existing verbose : bool) (output_dir : option string)
  : list ConversionResult * list ConversionResult :=
  let dxf_files := find_dxf_files env directory pattern in
  match dxf_files with
  | [] => ([], [])
  | _ =>
      if skip_existing then
        let dxf_files :=
          filter (fun f => should_skip_file env f output_dir = false) dxf_files in
        match dxf_files with
        | [] => ([], [])
        | _ => run_pool env verbose output_dir dxf_files
        end
      else run_pool env verbose output_dir dxf_files
  end.

(** The exit status of [main]: [sys.exit(0 if not failed else 1)]. *)
Definition exit_status (failed : list ConversionResult) : nat :=
  match failed with [] => 0 | _ => 1 end.

End Batch.

(** The name [stem1 ext1 stem2 ext2 ... tail] made of the given stems and
    extensions, in order, and a tail. *)
Definition with_extensions (parts : list (string * string)) (tail : string) : string :=
  foldr (fun p acc => p.1 +:+ p.2 +:+ acc) tail parts.

(** A batch environment for the examples: three files are found, an STL
    file exists for the second one, the conversion of the third one raises,
    and the pool hands the results back in reverse order. *)
Definition sample_env : Batch.Env :=
  Batch.mkEnv
    (fun d f => d +:+ "/" +:+ f)
    (fun f => f)
    (fun f => String.eqb f "b.stl")
    (fun _ _ => ["a.dxf"; "b.dxf"; "c.dxf"])
    (fun f _ => if String.eqb f "c.dxf" then Batch.Raised "No valid 3D geometry found!"
                else Batch.Returned (Batch.stl_name f))
    reverse
    reverse_Permutation.

(** ** [download_gent_data.py] *)

(** Python's [s.split(sep)] for a one-character separator: the pieces between
    the separators, a non-empty list.  [cur] is the piece being read. *)
Fixpoint split_from (sep : Ascii.ascii) (cur s : string) : list string :=
  match s with
  | EmptyString => [cur]
  | String c rest =>
      if Ascii.eqb c sep then cur :: split_from sep "" rest
      else split_from sep (cur +:+ String c "") rest
  end.

Definition split (sep : Ascii.ascii) (s : string) : list string := split_from sep "" s.

(** [tiles[:limit]] for an integer [limit]: a negative limit counts from the
    end of the list. *)
Definition slice_to (A : Type) (limit : Z) (tiles : list A) : list A :=
  if (0 <=? limit)%Z then take (Z.to_nat limit) tiles
  else take (length tiles - Z.to_nat (- limit)) tiles.
Arguments slice_to {A} limit tiles.

Module Download.

(** One entry of the dataset index, read with [tile.get(...)]: the URL is
    None when the key is missing or null. *)
Record Tile : Type := mkTile
  { vaknummer : option string;
    link_naar_open_data : option string }.

(** The surroundings of a download run, over a type [W] of states of the
    file system and the network: the test "tile_dir exists and holds a DWG
    file", the creation of a directory, the path [output_dir / dir_name],
    and the download and extraction of one ZIP file, which tells whether it
    went through without an exception.  These calls are taken to return. *)
Record Env (W : Type) : Type := mkEnv
  { has_dwg : string -> W -> bool;
    mkdir : string -> W -> W;
    path_join : string -> string -> string;
    fetch_and_extract : string -> string -> W -> bool * W }.
Arguments has_dwg {W} _ _ _.
Arguments mkdir {W} _ _ _.
Arguments path_join {W} _ _ _.
Arguments fetch_and_extract {W} _ _ _ _.

(** [url.split('/')[-1].replace('.zip', '')] *)
Definition dir_name (url : string) : string :=
  let zip_filename := default "" (last (split "/" url)) in
  replace ".zip" "" zip_filename.

Definition download_and_extract_tile {W : Type} (env : Env W) (tile : Tile)
    (output_dir : string) (w : W) : bool * W :=
  match link_naar_open_data tile with
  | None => (false, w)
  | Some url =>
      if String.eqb url "" then (false, w)
      else
        let tile_dir := path_join env output_dir (dir_name url) in
        if has_dwg env tile_dir w then (true, w)
        else
          let w := mkdir env tile_dir w in
          fetch_and_extract env url tile_dir w
  end.

(** The loop of [download_all_tiles] with its two counters. *)
Fixpoint download_loop {W : Type} (env : Env W) (tiles : list Tile) (output_dir : string)
    (successful failed : nat) (w : W) : nat * nat * W :=
  match tiles with
  | [] => (successful, failed, w)
  | tile :: rest =>
      let '(ok, w) := download_and_extract_tile env tile output_dir w in
      if ok then download_loop env rest output_dir (successful + 1) failed w
      else download_loop env rest output_dir successful (failed + 1) w
  end.

(** [download_all_tiles] once the index [tiles] has been fetched; the result
    is [(successful, failed)] and the state reached. *)
Definition download_all_tiles {W : Type} (env : Env W) (tiles : list Tile)
    (output_dir : string) (limit : option Z) (skip_existing : bool) (w : W)
  : nat * nat * W :=
  let tiles :=
    match limit with
    | Some n => if (n =? 0)%Z then tiles else slice_to n tiles
    | None => tiles
    end in
  let w := mkdir env output_dir w in
  download_loop env tiles output_dir 0 0 w.

End Download.

(** A download environment for the examples: the state is the list of tile
    directories that hold DWG files; every download goes through. *)
Definition sample_download_env : Download.Env (list string) :=
  Download.mkEnv (list string)
    (fun d w => bool_decide (d ∈ w))
    (fun d w => w)
    (fun d f => d +:+ "/" +:+ f)
    (fun url d w => (true, d :: w)).

Definition sample_tiles : list Download.Tile :=
  [Download.mkTile (Some "1") (Some "https://host/files/Dwg_1.zip");
   Download.mkTile (Some "2") None;
   Download.mkTile (Some "3") (Some "https://host/files/Dwg_3.zip")].

(** ** The mesh that the face loops build *)

(** The corners that a face contributes to the vertex buffer, given the
    outcome of the collection of its corners: the unique corners when there
    are at least three, none when the face is rejected or the collection
    raised. *)
Definition accepted_corners (collected : option (list vertex)) : list vertex :=
  match collected with
  | Some vertices => if 3 <=? length (dedup vertices) then dedup vertices else []
  | None => []
  end.

(** The triangles on [k] corners stored from index [start_idx] on. *)
Definition fan (start_idx k : nat) : list (list nat) :=
  match k with
  | 3 => [[start_idx; start_idx + 1; start_idx + 2]]
  | 4 => [[start_idx; start_idx + 1; start_idx + 2];
          [start_idx; start_idx + 2; start_idx + 3]]
  | _ => []
  end.

(** The triangles of a sequence of faces whose corners are stored one face
    after the other from index [start_idx] on. *)
Fixpoint fans (start_idx : nat) (corner_lists : list (list vertex)) : list (list nat) :=
  match corner_lists with
  | [] => []
  | u :: rest => fan start_idx (length u) ++ fans (start_idx + length u) rest
  end.

(** The number of faces that contribute corners. *)
Definition accepted_count (corner_lists : list (list vertex)) : nat :=
  length (filter (fun u => u <> []) corner_lists).

(** * Properties *)

(** ** The duplicate check *)

Section Dedup.

Implicit Types (v uv : vertex) (vs : list vertex).

Lemma within_tol_spec v uv :
  within_tol v uv = true <->
  PrimFloat.ltb (PrimFloat.abs (v.1.1 - uv.1.1)) 0.001 = true /\
  PrimFloat.ltb (PrimFloat.abs (v.1.2 - uv.1.2)) 0.001 = true /\
  PrimFloat.ltb (PrimFloat.abs (v.2 - uv.2)) 0.001 = true.
Proof.
  unfold within_tol. rewrite !andb_true_iff. tauto.
Qed.

Lemma is_duplicate_spec v vs :
  is_duplicate v vs = true <-> exists uv, uv ∈ vs /\ within_tol v uv = true.
Proof.
  unfold is_duplicate. rewrite existsb_exists.
  split; intros (uv & Hin & Hc); exists uv; split; try done;
    by apply list_elem_of_In.
Qed.

Lemma dedup_nil : dedup [] = [].
Proof. reflexivity. Qed.

Lemma dedup_snoc vs v :
  dedup (vs ++ [v]) =
  if is_duplicate v (dedup vs) then dedup vs else dedup vs ++ [v].
Proof. unfold dedup. rewrite fold_left_app. reflexivity. Qed.

Lemma dedup_sublist vs : dedup vs `sublist_of` vs.
Proof.
  induction vs as [|v vs IH] using rev_ind; [constructor|].
  rewrite dedup_snoc. destruct (is_duplicate v (dedup vs)).
  - by apply sublist_inserts_r.
  - by apply sublist_app.
Qed.

Lemma dedup_length vs : length (dedup vs) <= length vs.
Proof. apply sublist_length, dedup_sublist. Qed.

Lemma dedup_pair_merge p q :
  within_tol q p = true -> dedup [p; q] = [p].
Proof.
  intros H. unfold dedup; simpl. unfold dedup_step at 1; simpl.
  unfold dedup_step, is_duplicate; simpl. by rewrite H.
Qed.

Lemma dedup_pair_keep p q :
  within_tol q p = false -> dedup [p; q] = [p; q].
Proof.
  intros H. unfold dedup; simpl. unfold dedup_step at 1; simpl.
  unfold dedup_step, is_duplicate; simpl. by rewrite H.
Qed.

End Dedup.

(** C4. The duplicate check returns a subsequence of its input; a point is
    dropped exactly when the float test [abs(v - uv) < 0.001] holds on each
    of the three axes for some point [uv] accepted before it, and is
    otherwise accepted behind the points accepted so far.  Two points whose
    difference is 0.0009 on every axis merge into the first; two points whose
    difference is 0.0011 on some axis are both kept.  The differences are
    those the program computes, later point minus accepted point. *)
Theorem dedup_contract :
  (forall vs : list vertex, dedup vs `sublist_of` vs) /\
  dedup [] = [] /\
  (forall (vs : list vertex) (v : vertex),
      ((exists uv, uv ∈ dedup vs /\ within_tol v uv = true) ->
       dedup (vs ++ [v]) = dedup vs) /\
      ((forall uv, uv ∈ dedup vs -> within_tol v uv = false) ->
       dedup (vs ++ [v]) = dedup vs ++ [v])) /\
  (forall v uv : vertex,
      within_tol v uv = true <->
      PrimFloat.ltb (PrimFloat.abs (v.1.1 - uv.1.1)) 0.001 = true /\
      PrimFloat.ltb (PrimFloat.abs (v.1.2 - uv.1.2)) 0.001 = true /\
      PrimFloat.ltb (PrimFloat.abs (v.2 - uv.2)) 0.001 = true) /\
  (forall p q : vertex,
      PrimFloat.abs (q.1.1 - p.1.1) = 0.0009%float ->
      PrimFloat.abs (q.1.2 - p.1.2) = 0.0009%float ->
      PrimFloat.abs (q.2 - p.2) = 0.0009%float ->
      dedup [p; q] = [p]) /\
  (forall p q : vertex,
      PrimFloat.abs (q.1.1 - p.1.1) = 0.0011%float \/
      PrimFloat.abs (q.1.2 - p.1.2) = 0.0011%float \/
      PrimFloat.abs (q.2 - p.2) = 0.0011%float ->
      dedup [p; q] = [p; q]).
Proof.
  split; [apply dedup_sublist|]. split; [apply dedup_nil|].
  split; [|split; [apply within_tol_spec|split]].
  - intros vs v. rewrite dedup_snoc. split.
    + intros H. apply is_duplicate_spec in H. by rewrite H.
    + intros H. destruct (is_duplicate v (dedup vs)) eqn:E; [|done].
      apply is_duplicate_spec in E as (uv & Hin & Hc).
      rewrite (H uv Hin) in Hc. discriminate.
  - intros p q Hx Hy Hz. apply dedup_pair_merge.
    unfold within_tol. by rewrite Hx, Hy, Hz.
  - intros p q H. apply dedup_pair_keep. unfold within_tol.
    destruct H as [H|[H|H]]; rewrite H.
    + done.
    + apply andb_false_iff. left. apply andb_false_iff. by right.
    + apply andb_false_iff. by right.
Qed.

(** The contract at concrete points: (0.0009, 0.0009, 0.0009) merges into the
    origin, (0, 0.0011, 0) does not, and a point within the tolerance of the
    first of two accepted points is dropped. *)
Lemma dedup_contract_witness :
  dedup [(0, 0, 0)%float; (0.0009, 0.0009, 0.0009)%float] = [(0, 0, 0)%float] /\
  dedup [(0, 0, 0)%float; (0, 0.0011, 0)%float]
  = [(0, 0, 0)%float; (0, 0.0011, 0)%float] /\
  dedup ([(1, 2, 3)%float; (5, 5, 5)%float] ++ [(1.0005, 2, 3)%float])
  = dedup [(1, 2, 3)%float; (5, 5, 5)%float].
Proof.
  split; [|split].
  - apply (proj1 (proj2 (proj2 (proj2 (proj2 dedup_contract))))); reflexivity.
  - apply (proj2 (proj2 (proj2 (proj2 (proj2 dedup_contract))))).
    right; left. reflexivity.
  - apply (proj1 (proj2 (proj2 dedup_contract))).
    exists (1, 2, 3)%float. split; [|reflexivity].
    apply list_elem_of_In. simpl. left. reflexivity.
Defined.

(** ** Faces: direct and block-nested *)

Ltac run_monad :=
  unfold mbind, M_bind, mret, M_ret, gets, modify, lift, try_except, index; simpl.

Lemma collect_corners_length attrs acc vs :
  collect_corners attrs acc = Some vs -> length vs <= length acc + length attrs.
Proof.
  revert acc. induction attrs as [|a attrs IH]; intros acc H; simpl in *.
  - injection H as <-. lia.
  - destruct a as [| |[pt|]]; try discriminate;
      apply IH in H; rewrite ?length_app in H; simpl in H; lia.
Qed.

Lemma collect_block_corners_length m attrs acc vs :
  collect_block_corners m attrs acc = Some vs ->
  length vs <= length acc + length attrs.
Proof.
  revert acc. induction attrs as [|a attrs IH]; intros acc H; simpl in *.
  - injection H as <-. lia.
  - destruct a as [| |[pt|]]; try discriminate;
      apply IH in H; rewrite ?length_app in H; simpl in H; lia.
Qed.

Lemma add_face_accept vs s :
  length vs <= 4 -> 3 <= length (dedup vs) ->
  exists s', add_face vs s = (Some tt, s') /\ face_appended (dedup vs) s s'.
Proof.
  intros H4 H3. pose proof (dedup_length vs) as Hle.
  unfold add_face.
  destruct (Nat.leb_spec 3 (length vs)) as [_|?]; [|lia].
  destruct (Nat.leb_spec 3 (length (dedup vs))) as [_|?]; [|lia].
  assert (Hk : forall k, k < length (dedup vs) ->
     (all_vertices s ++ dedup vs) !! (length (all_vertices s) + k) = dedup vs !! k).
  { intros k _. rewrite lookup_app_r by lia. f_equal. lia. }
  run_monad.
  destruct (Nat.eqb_spec (length (dedup vs)) 3) as [E|E]; simpl.
  - eexists; split; [reflexivity|]. unfold face_appended; simpl.
    repeat split; try done. left; done.
  - eexists; split; [reflexivity|]. unfold face_appended; simpl.
    repeat split; try done. right. split; [lia|]. by rewrite <- app_assoc.
Qed.

Lemma add_face_reject vs s :
  length vs < 3 \/ length (dedup vs) < 3 ->
  exists s', add_face vs s = (Some tt, s') /\ face_rejected s s'.
Proof.
  intros H. unfold add_face.
  destruct (Nat.leb_spec 3 (length vs)) as [?|?].
  - destruct (Nat.leb_spec 3 (length (dedup vs))) as [?|?]; [lia|].
    eexists; split; [reflexivity|]. by unfold face_rejected.
  - eexists; split; [reflexivity|]. by unfold face_rejected.
Qed.

(** C3. A direct face, and a face nested in a block, whose collected corners
    keep at least three unique points: the unique corners are appended to the
    vertex buffer in order, one triangle (c0,c1,c2) is appended for three
    corners and the two triangles (c0,c1,c2), (c0,c2,c3) for four, and the
    valid face counter grows by one. *)
Theorem face_accepted :
  (forall (entity : Face.dxf) (vertices : list vertex) (s : St),
      collect_corners (Face.attrs entity) [] = Some vertices ->
      3 <= length (dedup vertices) ->
      exists s', process_3dface entity s = (Some tt, s') /\
                 face_appended (dedup vertices) s s') /\
  (forall (insert_matrix : Vec3.t -> Vec3.t) (block_entity : Face.dxf)
          (vertices : list vertex) (s : St),
      collect_block_corners insert_matrix (Face.attrs block_entity) [] = Some vertices ->
      3 <= length (dedup vertices) ->
      exists s', process_block_3dface insert_matrix block_entity s = (Some tt, s') /\
                 face_appended (dedup vertices) s s').
Proof.
  split.
  - intros entity vertices s Hc H3.
    destruct (add_face_accept vertices s) as (s' & Hrun & Hs'); [|done|].
    { apply collect_corners_length in Hc. simpl in Hc. lia. }
    exists s'. split; [|done].
    unfold process_3dface, try_except, mbind, M_bind, lift.
    rewrite Hc, Hrun. done.
  - intros m block_entity vertices s Hc H3.
    destruct (add_face_accept vertices s) as (s' & Hrun & Hs'); [|done|].
    { apply collect_block_corners_length in Hc. simpl in Hc. lia. }
    exists s'. split; [|done].
    unfold process_block_3dface, try_except, mbind, M_bind, lift.
    rewrite Hc, Hrun. done.
Qed.

(** C6. A direct face, and a face nested in a block, with fewer than three
    present corners or fewer than three unique corners: nothing is appended
    to either buffer, the invalid face counter grows by one and the valid
    counter stays. *)
Theorem face_degenerate :
  (forall (entity : Face.dxf) (vertices : list vertex) (s : St),
      collect_corners (Face.attrs entity) [] = Some vertices ->
      length vertices < 3 \/ length (dedup vertices) < 3 ->
      exists s', process_3dface entity s = (Some tt, s') /\ face_rejected s s') /\
  (forall (insert_matrix : Vec3.t -> Vec3.t) (block_entity : Face.dxf)
          (vertices : list vertex) (s : St),
      collect_block_corners insert_matrix (Face.attrs block_entity) [] = Some vertices ->
      length vertices < 3 \/ length (dedup vertices) < 3 ->
      exists s', process_block_3dface insert_matrix block_entity s = (Some tt, s') /\
                 face_rejected s s').
Proof.
  split.
  - intros entity vertices s Hc Hd.
    destruct (add_face_reject vertices s Hd) as (s' & Hrun & Hs').
    exists s'. split; [|done].
    unfold process_3dface, try_except, mbind, M_bind, lift.
    rewrite Hc, Hrun. done.
  - intros m block_entity vertices s Hc Hd.
    destruct (add_face_reject vertices s Hd) as (s' & Hrun & Hs').
    exists s'. split; [|done].
    unfold process_block_3dface, try_except, mbind, M_bind, lift.
    rewrite Hc, Hrun. done.
Qed.

Lemma face_accepted_witness :
  (exists s', process_3dface quad_face init = (Some tt, s') /\
     face_appended (dedup [(0, 0, 0)%float; (1, 0, 0)%float; (1, 1, 0)%float; (0, 1, 0)%float]) init s') /\
  (exists s', process_block_3dface (translate 100 200 0) tri_face init = (Some tt, s') /\
     face_appended (dedup [(100, 200, 0)%float; (101, 200, 0)%float; (100, 201, 0)%float]) init s').
Proof.
  split.
  - apply (proj1 face_accepted); [reflexivity | vm_compute; lia].
  - apply (proj2 face_accepted); [reflexivity | vm_compute; lia].
Defined.

Lemma face_degenerate_witness :
  (exists s', process_3dface sliver_face init = (Some tt, s') /\ face_rejected init s') /\
  (exists s', process_block_3dface (translate 100 200 0) two_corner_face init
              = (Some tt, s') /\ face_rejected init s').
Proof.
  split.
  - apply (proj1 face_degenerate) with
      (vertices := [(0, 0, 0)%float; (0.0005, 0, 0)%float; (0, 1, 0)%float]);
      [reflexivity | right; vm_compute; lia].
  - apply (proj2 face_degenerate) with
      (vertices := [(100, 200, 0)%float; (101, 200, 0)%float]);
      [reflexivity | left; simpl; lia].
Defined.

(** ** A block placed by a pure translation *)

Section Translation.

Lemma within_tol_equiv v v' uv uv' :
  vertex_equiv v v' -> vertex_equiv uv uv' -> within_tol v uv = within_tol v' uv'.
Proof.
  intros (H1 & H2 & H3) (K1 & K2 & K3). unfold within_tol.
  by rewrite H1, H2, H3, K1, K2, K3.
Qed.

Lemma is_duplicate_equiv v v' u u' :
  vertex_equiv v v' -> Forall2 vertex_equiv u u' ->
  is_duplicate v u = is_duplicate v' u'.
Proof.
  intros Hv Hu. unfold is_duplicate.
  induction Hu as [|uv uv' u u' Huv _ IH]; simpl; [done|].
  by rewrite (within_tol_equiv v v' uv uv'), IH.
Qed.

Lemma fold_dedup_equiv l l' acc acc' :
  Forall2 vertex_equiv l l' -> Forall2 vertex_equiv acc acc' ->
  Forall2 vertex_equiv (fold_left dedup_step l acc) (fold_left dedup_step l' acc').
Proof.
  intros Hl. revert acc acc'.
  induction Hl as [|v v' l l' Hv _ IH]; intros acc acc' Hacc; simpl; [done|].
  apply IH. unfold dedup_step.
  rewrite (is_duplicate_equiv v v' acc acc') by done.
  destruct (is_duplicate v' acc'); [done|].
  apply Forall2_app; [done|]. by constructor.
Qed.

Lemma dedup_equiv l l' :
  Forall2 vertex_equiv l l' -> Forall2 vertex_equiv (dedup l) (dedup l').
Proof. intros H. apply fold_dedup_equiv; [done|constructor]. Qed.

Context (insert_matrix : Vec3.t -> Vec3.t) (dx dy dz : float).
Context (Hmove : is_translation insert_matrix dx dy dz).

Lemma collect_corners_translated attrs acc acc' :
  Forall2 vertex_equiv acc acc' ->
  option_Forall2 (Forall2 vertex_equiv)
    (collect_block_corners insert_matrix attrs acc)
    (collect_corners (map (shift_attr dx dy dz) attrs) acc').
Proof.
  revert acc acc'. induction attrs as [|a attrs IH]; intros acc acc' Hacc; simpl.
  - by constructor.
  - destruct a as [| |[pt|]]; simpl; try (by apply IH); [constructor|].
    apply IH. apply Forall2_app; [done|]. constructor; [|constructor]. apply Hmove.
Qed.

Lemma add_face_equiv vs vs' s t :
  Forall2 vertex_equiv vs vs' -> St_equiv s t ->
  (add_face vs s).1 = (add_face vs' t).1 /\
  St_equiv (add_face vs s).2 (add_face vs' t).2.
Proof.
  intros Hvs (Hv & Hf & Ho & H1 & H2 & H3 & H4 & Hl).
  pose proof (dedup_equiv _ _ Hvs) as Hu.
  pose proof (Forall2_length _ _ _ Hvs) as Elen.
  pose proof (Forall2_length _ _ _ Hu) as Eulen.
  pose proof (Forall2_length _ _ _ Hv) as Evlen.
  unfold add_face. rewrite <- Elen, <- Eulen.
  destruct (3 <=? length vs); [|by unfold St_equiv; simpl; rewrite ?H2].
  destruct (3 <=? length (dedup vs)); [|by unfold St_equiv; simpl; rewrite ?H2].
  run_monad. rewrite <- Evlen.
  destruct (length (dedup vs) =? 3); simpl; (split; [done|]);
    unfold St_equiv; simpl; rewrite ?Hf, ?Hl, ?H1, ?length_app, <- ?Eulen, <- ?Evlen;
    (split; [by apply Forall2_app|done]).
Qed.

Lemma block_face_translated (block_entity : Face.dxf) (s t : St) :
  St_equiv s t ->
  (process_block_3dface insert_matrix block_entity s).1
  = (process_3dface (shift_face dx dy dz block_entity) t).1 /\
  St_equiv (process_block_3dface insert_matrix block_entity s).2
           (process_3dface (shift_face dx dy dz block_entity) t).2.
Proof.
  intros Hst.
  unfold process_block_3dface, process_3dface, try_except, mbind, M_bind, lift.
  change (Face.attrs (shift_face dx dy dz block_entity))
    with (map (shift_attr dx dy dz) (Face.attrs block_entity)).
  destruct (collect_corners_translated (Face.attrs block_entity) [] [])
    as [vs vs' Hvs|]; [constructor| |].
  - destruct (add_face_equiv vs vs' s t Hvs Hst) as [E1 E2].
    destruct (add_face vs s) as [[[]|] s1], (add_face vs' t) as [[[]|] t1];
      simpl in *; try discriminate; try done.
    destruct E2 as (Hv & Hf & Ho & H1 & H2 & H3 & H4 & Hl).
    unfold modify, St_equiv; simpl. by rewrite H2.
  - destruct Hst as (Hv & Hf & Ho & H1 & H2 & H3 & H4 & Hl).
    unfold modify, St_equiv; simpl. by rewrite H2.
Qed.

End Translation.

(** C9. When the transform of a block instance is a pure translation by
    (dx,dy,dz), processing a face nested in its block has the same effect as
    processing a direct face whose corners are those of the nested face moved
    by (dx,dy,dz): the same completion, the same triangles and counters, and
    vertex buffers that agree coordinate by coordinate.  The
    document of scenario B gives the three vertices (100,200,0), (101,200,0),
    (100,201,0) and the single triangle on them. *)
Theorem translated_block_face :
  (forall (insert_matrix : Vec3.t -> Vec3.t) (dx dy dz : float)
          (block_entity : Face.dxf) (s t : St),
      is_translation insert_matrix dx dy dz ->
      St_equiv s t ->
      (process_block_3dface insert_matrix block_entity s).1
      = (process_3dface (shift_face dx dy dz block_entity) t).1 /\
      St_equiv (process_block_3dface insert_matrix block_entity s).2
               (process_3dface (shift_face dx dy dz block_entity) t).2) /\
  (exists s,
      dxf_to_stl_3dface scenario_B
      = Mesh [(100, 200, 0)%float; (101, 200, 0)%float; (100, 201, 0)%float] [[0; 1; 2]] s /\
      valid_3dface s = 1 /\ invalid_3dface s = 0).
Proof.
  split.
  - intros m dx dy dz e s t Hm Hst. by apply block_face_translated.
  - eexists. split; [vm_compute; reflexivity|]. done.
Qed.

Lemma translated_block_face_witness :
  (process_block_3dface (translate 100 200 0) tri_face init).1
  = (process_3dface (shift_face 100 200 0 tri_face) init).1 /\
  St_equiv (process_block_3dface (translate 100 200 0) tri_face init).2
           (process_3dface (shift_face 100 200 0 tri_face) init).2.
Proof.
  apply (proj1 translated_block_face).
  - intros pt. unfold vertex_equiv. simpl. repeat split; reflexivity.
  - unfold St_equiv. simpl. repeat split; constructor.
Defined.

(** ** Polyface meshes *)

Section Polyface.

Implicit Types (vertex_map : gmap nat nat) (recs : list Vertex.dxf).

Lemma vertex_table_take_lt recs k r v :
  recs !! k = Some r -> record_vertex r = Some v ->
  length (vertex_table (take k recs)) < length (vertex_table recs) /\
  vertex_table recs !! length (vertex_table (take k recs)) = Some v.
Proof.
  intros Hk Hv. unfold vertex_table.
  rewrite <- (take_drop_middle recs k r Hk) at 2 4.
  rewrite omap_app. simpl. rewrite Hv. rewrite length_app. simpl.
  split; [lia|]. rewrite lookup_app_r by lia.
  by rewrite Nat.sub_diag.
Qed.

Lemma vertex_table_cons r recs :
  vertex_table (r :: recs) =
  match record_vertex r with
  | Some v => v :: vertex_table recs
  | None => vertex_table recs
  end.
Proof. unfold vertex_table. simpl. by destruct (record_vertex r). Qed.

(** The outcome of the first loop: the vertex table, and a map sending the
    position of each coordinate record to its ordinal in the table. *)
Lemma collect_locations_spec recs : forall i vertices0 vertex_map0 vertices vertex_map,
  collect_locations i recs vertices0 vertex_map0 = Some (vertices, vertex_map) ->
  vertices = vertices0 ++ vertex_table recs /\
  forall k,
    vertex_map !! k =
    match (if decide (i <= k) then recs !! (k - i) ≫= record_vertex else None) with
    | Some _ => Some (length vertices0 + length (vertex_table (take (k - i) recs)))
    | None => vertex_map0 !! k
    end.
Proof.
  induction recs as [|r recs IH]; intros i vs0 vm0 vs vm H; simpl in H.
  - injection H as <- <-. split; [by rewrite app_nil_r|].
    intros k. by destruct (decide (i <= k)).
  - destruct (Vertex.location r) as [| |[loc|]] eqn:El; try discriminate.
    + assert (Hr : record_vertex r = None) by (unfold record_vertex; by rewrite El).
      apply IH in H as [-> Hm]. rewrite vertex_table_cons, Hr. split; [done|].
      intros k. rewrite Hm.
      destruct (decide (S i <= k)) as [Hk|Hk].
      * rewrite decide_True by lia.
        replace (k - i) with (S (k - S i)) by lia.
        rewrite firstn_cons, vertex_table_cons, Hr. done.
      * destruct (decide (i <= k)) as [Hk'|Hk']; [|done].
        replace (k - i) with 0 by lia. simpl. by rewrite Hr.
    + assert (Hr : record_vertex r = Some (coords loc))
        by (unfold record_vertex; by rewrite El).
      apply IH in H as [-> Hm]. rewrite vertex_table_cons, Hr.
      split; [by rewrite <- app_assoc|].
      intros k. rewrite Hm.
      destruct (decide (S i <= k)) as [Hk|Hk].
      * rewrite decide_True by lia.
        replace (k - i) with (S (k - S i)) by lia.
        rewrite firstn_cons, vertex_table_cons, Hr.
        change ((r :: recs) !! S (k - S i)) with (recs !! (k - S i)).
        rewrite length_app.
        destruct (recs !! (k - S i) ≫= record_vertex).
        -- f_equal. simpl. lia.
        -- apply lookup_insert_ne. lia.
      * destruct (decide (i <= k)) as [Hk'|Hk'].
        -- replace k with i by lia. rewrite Nat.sub_diag. simpl. rewrite Hr.
           rewrite lookup_insert_eq. f_equal. unfold vertex_table. simpl. lia.
        -- apply lookup_insert_ne. lia.
Qed.

Lemma vertex_map_lookup recs vertices vertex_map k :
  collect_locations 0 recs [] ∅ = Some (vertices, vertex_map) ->
  vertices = vertex_table recs /\
  vertex_map !! k =
  match recs !! k ≫= record_vertex with
  | Some _ => Some (length (vertex_table (take k recs)))
  | None => None
  end.
Proof.
  intros H. apply collect_locations_spec in H as [-> Hm]. split; [done|].
  rewrite Hm. rewrite decide_True by lia. rewrite Nat.sub_0_r. simpl.
  destruct (recs !! k ≫= record_vertex); [done|]. apply lookup_empty.
Qed.

Lemma vertex_table_all_located recs :
  Forall (fun r => is_Some (record_vertex r)) recs ->
  length (vertex_table recs) = length recs.
Proof.
  induction 1 as [|r recs [v Hv] _ IH]; [done|].
  rewrite vertex_table_cons, Hv. simpl. by rewrite IH.
Qed.

Lemma resolve_nonzero vertex_map offset idx rest acc :
  idx <> 0%Z ->
  resolve_indices vertex_map offset (Present (Some idx) :: rest) acc =
  match vertex_map !! Z.to_nat (Z.abs idx - 1) with
  | Some j => resolve_indices vertex_map offset rest (acc ++ [j + offset])
  | None => resolve_indices vertex_map offset rest acc
  end.
Proof. intros H. simpl. by destruct (Z.eqb_spec idx 0). Qed.

Lemma extract_face_few vertex_map vertex s fi :
  resolve_indices vertex_map (vertex_offset s) (Vertex.attrs vertex) [] = Some fi ->
  length fi < 3 ->
  extract_face vertex_map vertex s = (Some tt, s).
Proof.
  intros Hr Hlen. unfold extract_face.
  destruct (Vertex.vtx0 vertex) eqn:E0; [done| |].
  - unfold Vertex.attrs in Hr. rewrite E0 in Hr. discriminate.
  - unfold mbind, M_bind, gets, lift. rewrite Hr.
    destruct (Nat.leb_spec 3 (length fi)); [lia|done].
Qed.

End Polyface.

(** C7. Face records of a polyface mesh.  A zero index contributes nothing.
    A non-zero index [idx] is looked up at position [abs idx - 1] of the
    sub-record list: when that record carries a coordinate, the index
    resolves to the captured offset plus the ordinal [j] that the record's
    vertex has in the local vertex table (and [j = abs idx - 1] when every
    earlier record carries a coordinate too); otherwise it is dropped.  Four
    coordinate records followed by the face record [1,2,3,4] give the two
    triangles on the offset plus (0,1,2) and (0,2,3); the record [1,2,3,0]
    gives the one triangle on the offset plus (0,1,2); when the offset equals
    the length of the vertex buffer these indices are where the four
    vertices are stored.  A face record with fewer than three resolved
    indices leaves the whole state, buffers and counters, as it was. *)
Theorem polyface_face_records :
  (forall (vertex_map : gmap nat nat) (offset : nat) rest acc,
      resolve_indices vertex_map offset (Present (Some 0%Z) :: rest) acc
      = resolve_indices vertex_map offset rest acc) /\
  (forall (recs : list Vertex.dxf) (vertices : list vertex) (vertex_map : gmap nat nat),
      collect_locations 0 recs [] ∅ = Some (vertices, vertex_map) ->
      forall (idx : Z) (offset : nat) rest acc,
        idx <> 0%Z ->
        let k := Z.to_nat (Z.abs idx - 1) in
        match recs !! k ≫= record_vertex with
        | Some v =>
            exists j,
              vertices !! j = Some v /\
              j = length (vertex_table (take k recs)) /\
              (Forall (fun r => is_Some (record_vertex r)) (take k recs) -> j = k) /\
              resolve_indices vertex_map offset (Present (Some idx) :: rest) acc
              = resolve_indices vertex_map offset rest (acc ++ [j + offset])
        | None =>
            resolve_indices vertex_map offset (Present (Some idx) :: rest) acc
            = resolve_indices vertex_map offset rest acc
        end) /\
  (forall (v0 v1 v2 v3 : Vec3.t) (s : St),
      let o := vertex_offset s in
      exists s',
        process_polyline
          (Polyline.mk true
             [coordinate_record v0; coordinate_record v1; coordinate_record v2;
              coordinate_record v3; face_record 1 2 3 4]) s = (Some tt, s') /\
        all_vertices s' = all_vertices s ++ [coords v0; coords v1; coords v2; coords v3] /\
        all_faces s' = all_faces s ++ [[o; o + 1; o + 2]; [o; o + 2; o + 3]] /\
        (o = length (all_vertices s) ->
         (fun i => all_vertices s' !! i) <$> [o; o + 1; o + 2; o + 3]
         = [Some (coords v0); Some (coords v1); Some (coords v2); Some (coords v3)])) /\
  (forall (v0 v1 v2 v3 : Vec3.t) (s : St),
      let o := vertex_offset s in
      exists s',
        process_polyline
          (Polyline.mk true
             [coordinate_record v0; coordinate_record v1; coordinate_record v2;
              coordinate_record v3; face_record 1 2 3 0]) s = (Some tt, s') /\
        all_vertices s' = all_vertices s ++ [coords v0; coords v1; coords v2; coords v3] /\
        all_faces s' = all_faces s ++ [[o; o + 1; o + 2]] /\
        (o = length (all_vertices s) ->
         (fun i => all_vertices s' !! i) <$> [o; o + 1; o + 2]
         = [Some (coords v0); Some (coords v1); Some (coords v2)])) /\
  (forall (vertex_map : gmap nat nat) (vertex : Vertex.dxf) (s : St) (fi : list nat),
      resolve_indices vertex_map (vertex_offset s) (Vertex.attrs vertex) [] = Some fi ->
      length fi < 3 ->
      extract_face vertex_map vertex s = (Some tt, s)).
Proof.
  split; [reflexivity|]. split; [|split; [|split]].
  - intros recs vertices vm Hc idx offset rest acc Hidx k.
    destruct (vertex_map_lookup recs vertices vm k Hc) as [-> Hk].
    rewrite (resolve_nonzero vm offset idx rest acc Hidx). fold k. rewrite Hk.
    destruct (recs !! k ≫= record_vertex) as [v|] eqn:E; [|done].
    destruct (recs !! k) as [r|] eqn:Er; [|done]. simpl in E.
    destruct (vertex_table_take_lt recs k r v Er E) as [_ Hv].
    eexists. split; [exact Hv|]. split; [done|]. split; [|done].
    intros Hall. rewrite vertex_table_all_located by done.
    rewrite length_take. apply lookup_lt_Some in Er. lia.
  - intros v0 v1 v2 v3 s o. eexists. split; [reflexivity|]. simpl.
    split; [done|]. split.
    + subst o. rewrite <- app_assoc. simpl. repeat (f_equal; try lia).
    + intros ->. simpl. rewrite !lookup_app_r by lia.
      replace (length (all_vertices s) - length (all_vertices s)) with 0 by lia.
      replace (length (all_vertices s) + 1 - length (all_vertices s)) with 1 by lia.
      replace (length (all_vertices s) + 2 - length (all_vertices s)) with 2 by lia.
      replace (length (all_vertices s) + 3 - length (all_vertices s)) with 3 by lia.
      done.
  - intros v0 v1 v2 v3 s o. eexists. split; [reflexivity|]. simpl.
    split; [done|]. split.
    + subst o. repeat (f_equal; try lia).
    + intros ->. simpl. rewrite !lookup_app_r by lia.
      replace (length (all_vertices s) - length (all_vertices s)) with 0 by lia.
      replace (length (all_vertices s) + 1 - length (all_vertices s)) with 1 by lia.
      replace (length (all_vertices s) + 2 - length (all_vertices s)) with 2 by lia.
      done.
  - apply extract_face_few.
Qed.

Lemma polyface_face_records_witness :
  (exists vertices vertex_map,
      collect_locations 0 (Polyline.vertices small_polyface) [] ∅
      = Some (vertices, vertex_map) /\
      exists j,
        vertices !! j = Some (6, 5, 5)%float /\
        j = length (vertex_table (take 1 (Polyline.vertices small_polyface))) /\
        (Forall (fun r => is_Some (record_vertex r))
                (take 1 (Polyline.vertices small_polyface)) -> j = 1) /\
        resolve_indices vertex_map 7 [Present (Some (-2)%Z)] []
        = resolve_indices vertex_map 7 [] ([] ++ [j + 7])) /\
  extract_face ∅ (face_record 1 2 0 0) init = (Some tt, init).
Proof.
  split.
  - eexists _, _. split; [reflexivity|].
    exact (proj1 (proj2 polyface_face_records)
             (Polyline.vertices small_polyface) _ _ eq_refl (-2)%Z 7 [] []
             ltac:(discriminate)).
  - apply (proj2 (proj2 (proj2 (proj2 polyface_face_records)))) with (fi := []);
      [reflexivity | simpl; lia].
Defined.

(** C7, as stated, fails when a sub-record without a coordinate stands in
    front of the coordinate records: the local vertex table of
    [leading_blank_polyface] has the three entries 0, 1, 2, and by the rule
    of the specification the face record [1,2,3,0] resolves to them and gives
    one triangle.  The source looks the indices up by sub-record position:
    index 1 is dropped although entry 0 was collected, index 2 resolves to
    entry 0 and index 3 to entry 1, and with two resolved indices no triangle
    is appended. *)
Lemma polyface_face_records_counterexample :
  match collect_locations 0 (Polyline.vertices leading_blank_polyface) [] ∅ with
  | Some (table, vertex_map) =>
      table = [(5, 5, 5)%float; (6, 5, 5)%float; (5, 6, 5)%float] /\
      spec_resolve_index table 0 1 = Some 0 /\
      resolve_indices vertex_map 0 [Present (Some 1%Z)] [] = Some [] /\
      spec_resolve_index table 0 2 = Some 1 /\
      resolve_indices vertex_map 0 [Present (Some 2%Z)] [] = Some [0] /\
      spec_resolve_index table 0 3 = Some 2 /\
      resolve_indices vertex_map 0 [Present (Some 3%Z)] [] = Some [1]
  | None => False
  end /\
  all_faces (process_polyline leading_blank_polyface init).2 = [] /\
  ~ (forall (recs : list Vertex.dxf) table vertex_map (idx : Z) (g : nat),
        collect_locations 0 recs [] ∅ = Some (table, vertex_map) ->
        spec_resolve_index table 0 idx = Some g ->
        resolve_indices vertex_map 0 [Present (Some idx)] [] = Some [g]).
Proof.
  split; [vm_compute; repeat split; reflexivity|]. split; [reflexivity|].
  intros H.
  specialize (H (Polyline.vertices leading_blank_polyface) _ _ 1%Z 0 eq_refl eq_refl).
  vm_compute in H. discriminate.
Qed.

(** ** Loops that never raise *)

Lemma for_each_invariant {A : Type} (P : St -> Prop) (body : A -> M unit) (l : list A) :
  (forall a s, P s -> exists s', body a s = (Some tt, s') /\ P s') ->
  forall s, P s -> exists s', for_each l body s = (Some tt, s') /\ P s'.
Proof.
  intros Hbody. induction l as [|a l IH]; intros s Hs; simpl.
  - by exists s.
  - destruct (Hbody a s Hs) as (s1 & E1 & H1).
    destruct (IH s1 H1) as (s2 & E2 & H2).
    exists s2. split; [|done]. unfold mbind, M_bind. by rewrite E1.
Qed.

Lemma process_3dface_invariant (P : St -> Prop) entity :
  (forall vs s, P s -> P (add_face vs s).2) ->
  (forall s, P s -> P (incr_invalid_3dface s)) ->
  forall s, P s -> exists s', process_3dface entity s = (Some tt, s') /\ P s'.
Proof.
  intros Hadd Hinv s Hs. unfold process_3dface, try_except, mbind, M_bind, lift.
  destruct (collect_corners (Face.attrs entity) []) as [vs|].
  - specialize (Hadd vs s Hs). destruct (add_face vs s) as [[[]|] s1] eqn:E.
    + by exists s1.
    + exists (incr_invalid_3dface s1). split; [done|]. by apply Hinv.
  - exists (incr_invalid_3dface s). split; [done|]. by apply Hinv.
Qed.

Lemma process_block_3dface_invariant (P : St -> Prop) m block_entity :
  (forall vs s, P s -> P (add_face vs s).2) ->
  (forall s, P s -> P (incr_invalid_3dface s)) ->
  forall s, P s ->
    exists s', process_block_3dface m block_entity s = (Some tt, s') /\ P s'.
Proof.
  intros Hadd Hinv s Hs. unfold process_block_3dface, try_except, mbind, M_bind, lift.
  destruct (collect_block_corners m (Face.attrs block_entity) []) as [vs|].
  - specialize (Hadd vs s Hs). destruct (add_face vs s) as [[[]|] s1] eqn:E.
    + by exists s1.
    + exists (incr_invalid_3dface s1). split; [done|]. by apply Hinv.
  - exists (incr_invalid_3dface s). split; [done|]. by apply Hinv.
Qed.

Lemma face_pipelines_invariant (P : St -> Prop) doc :
  (forall vs s, P s -> P (add_face vs s).2) ->
  (forall s, P s -> P (incr_invalid_3dface s)) ->
  forall s, P s ->
    exists s', (direct_pipeline doc;; block_pipeline doc) s = (Some tt, s') /\ P s'.
Proof.
  intros Hadd Hinv s Hs.
  destruct (for_each_invariant P process_3dface (query_3DFACE (modelspace doc))
              (fun e => process_3dface_invariant P e Hadd Hinv) s Hs)
    as (s1 & E1 & H1).
  assert (exists s', block_pipeline doc s1 = (Some tt, s') /\ P s') as (s2 & E2 & H2).
  { unfold block_pipeline. destruct (0 <? _); [|by exists s1].
    apply for_each_invariant; [|done]. intros i t Ht. unfold process_insert.
    destruct (blocks doc !! Insert.name i) as [block|]; [|by exists t].
    apply for_each_invariant; [|done].
    intros e. by apply process_block_3dface_invariant. }
  exists s2. split; [|done].
  unfold mbind, M_bind. fold (direct_pipeline doc) in E1. by rewrite E1.
Qed.

Lemma process_polyline_completes entity s :
  exists s', process_polyline entity s = (Some tt, s').
Proof.
  unfold process_polyline, try_except, modify.
  destruct (Polyline.is_poly_face_mesh entity); [|by eexists].
  destruct (decode_polyface entity s) as [[[]|] s1]; by eexists.
Qed.

Lemma extract_geometry_completes doc s :
  exists s', extract_geometry doc s = (Some tt, s').
Proof.
  destruct (face_pipelines_invariant (fun _ => True) doc) with (s := s)
    as (s1 & E1 & _); [done..|].
  assert (exists s', polyface_pipeline doc s1 = (Some tt, s')) as (s2 & E2).
  { unfold polyface_pipeline. destruct (0 <? _); [|by exists s1].
    destruct (for_each_invariant (fun _ => True) process_polyline
                (query_POLYLINE (modelspace doc))) with (s := s1) as (s2 & E2 & _);
      [|done|by exists s2].
    intros e t _. destruct (process_polyline_completes e t) as (t' & Et).
    by exists t'. }
  exists s2. unfold extract_geometry.
  unfold mbind, M_bind in *.
  destruct (direct_pipeline doc s) as [[[]|] s0]; [|discriminate].
  by rewrite E1.
Qed.

(** ** The final test *)

(** C8. The three loops always run to completion, and then the conversion
    raises the empty-geometry error if and only if the vertex buffer or the
    face buffer is empty; otherwise the two buffers are handed on. *)
Theorem final_check (doc : Document) :
  exists s,
    extract_geometry doc init = (Some tt, s) /\
    ((exists s', dxf_to_stl_3dface doc = NoGeometry s') <->
     (all_vertices s = [] \/ all_faces s = [])) /\
    (all_vertices s = [] \/ all_faces s = [] -> dxf_to_stl_3dface doc = NoGeometry s) /\
    (all_vertices s <> [] -> all_faces s <> [] ->
     dxf_to_stl_3dface doc = Mesh (all_vertices s) (all_faces s) s).
Proof.
  destruct (extract_geometry_completes doc init) as (s & E).
  exists s. split; [done|]. unfold dxf_to_stl_3dface. rewrite E.
  destruct (all_vertices s) as [|v vs], (all_faces s) as [|f fs]; simpl;
    (split; [split; [intros [s' H]; try discriminate; auto
                    |intros [H|H]; try discriminate; eauto]|]);
    (split; [intros [H|H]; try discriminate; done|]); intros H1 H2; done.
Qed.

Lemma final_check_witness :
  (exists s, dxf_to_stl_3dface scenario_C = NoGeometry s /\
             invalid_3dface s = 1 /\ valid_3dface s = 0) /\
  (exists s, dxf_to_stl_3dface scenario_B = Mesh (all_vertices s) (all_faces s) s).
Proof.
  split.
  - destruct (final_check scenario_C) as (s & E & _ & Hempty & _).
    vm_compute in E. injection E as <-.
    eexists. split; [apply Hempty; left; reflexivity|]. done.
  - destruct (final_check scenario_B) as (s & E & _ & _ & Hmesh).
    vm_compute in E. injection E as <-.
    eexists. apply Hmesh; discriminate.
Defined.

(** ** Well-formed triangles *)

Section Triangles.

Lemma log_ok_append_face t s :
  log_ok s -> triangle_ok (length (all_vertices s)) t -> log_ok (append_face t s).
Proof.
  intros Hs Ht. unfold log_ok, append_face; simpl.
  apply Forall2_app; [done|]. by constructor.
Qed.

Lemma fan_triangle_ok n a b c :
  a < b -> b < c -> c < n -> triangle_ok n [a; b; c].
Proof.
  intros Hab Hbc Hcn. unfold triangle_ok. split; [done|]. split.
  - rewrite !NoDup_cons, !not_elem_of_cons. repeat split; try lia; try apply NoDup_nil_2.
    all: apply not_elem_of_nil.
  - repeat constructor; lia.
Qed.

Lemma add_face_log_ok vs s : log_ok s -> log_ok (add_face vs s).2.
Proof.
  intros Hs. unfold add_face.
  destruct (3 <=? length vs); [|done].
  destruct (Nat.leb_spec 3 (length (dedup vs))) as [H3|?]; [|done].
  run_monad.
  destruct (Nat.eqb_spec (length (dedup vs)) 3) as [E|E]; simpl.
  - apply (log_ok_append_face _ (extend_vertices (dedup vs) s)); [done|].
    simpl. rewrite length_app. apply fan_triangle_ok; lia.
  - apply (log_ok_append_face _
             (append_face _ (extend_vertices (dedup vs) s))).
    + apply (log_ok_append_face _ (extend_vertices (dedup vs) s)); [done|].
      simpl. rewrite length_app. apply fan_triangle_ok; lia.
    + simpl. rewrite length_app. apply fan_triangle_ok; lia.
Qed.

Lemma append_faces_fields ts s :
  all_vertices (append_faces ts s) = all_vertices s /\
  all_faces (append_faces ts s) = all_faces s ++ ts /\
  vertex_offset (append_faces ts s) = vertex_offset s /\
  valid_3dface (append_faces ts s) = valid_3dface s /\
  invalid_3dface (append_faces ts s) = invalid_3dface s /\
  valid_polyline (append_faces ts s) = valid_polyline s /\
  invalid_polyline (append_faces ts s) = invalid_polyline s.
Proof.
  revert s. induction ts as [|t ts IH]; intros s; simpl.
  - by rewrite app_nil_r.
  - destruct (IH (append_face t s)) as (-> & -> & -> & -> & -> & -> & ->). simpl.
    by rewrite <- app_assoc.
Qed.

Lemma append_faces_app ts1 ts2 s :
  append_faces ts2 (append_faces ts1 s) = append_faces (ts1 ++ ts2) s.
Proof. unfold append_faces. by rewrite fold_left_app. Qed.

Lemma resolve_indices_bound vertex_map offset bound attrs : forall acc fi,
  (forall k j, vertex_map !! k = Some j -> j < bound) ->
  resolve_indices vertex_map offset attrs acc = Some fi ->
  Forall (fun i => i < bound + offset) acc ->
  Forall (fun i => i < bound + offset) fi.
Proof.
  induction attrs as [|a attrs IH]; intros acc fi Hvm H Hacc; simpl in H.
  - by injection H as <-.
  - destruct a as [| |[idx|]]; try discriminate; try (by eapply IH).
    destruct (idx =? 0)%Z; [by eapply IH|].
    destruct (vertex_map !! Z.to_nat (Z.abs idx - 1)) as [j|] eqn:E; [|by eapply IH].
    eapply IH; [done..|]. apply Forall_app. split; [done|].
    constructor; [|done]. apply Hvm in E. lia.
Qed.

(** What one face record does: it appends faces, all of whose indices lie
    below the captured offset plus the size of the local vertex table. *)
Lemma extract_face_effect vertex_map bound vertex s :
  (forall k j, vertex_map !! k = Some j -> j < bound) ->
  exists ts,
    (extract_face vertex_map vertex s).2 = append_faces ts s /\
    Forall (Forall (fun i => i < bound + vertex_offset s)) ts.
Proof.
  intros Hvm. unfold extract_face.
  destruct (Vertex.vtx0 vertex); [by exists []..|].
  unfold mbind, M_bind, gets, lift.
  destruct (resolve_indices vertex_map (vertex_offset s) (Vertex.attrs vertex) [])
    as [fi|] eqn:Er; [|by exists []].
  assert (Hfi : Forall (fun i => i < bound + vertex_offset s) fi).
  { eapply resolve_indices_bound; [done..|constructor]. }
  destruct (3 <=? length fi); [|by exists []].
  destruct (length fi =? 3).
  { exists [fi]. split; [done|]. by constructor. }
  destruct (Nat.eqb_spec (length fi) 4) as [E4|]; [|by exists []].
  destruct fi as [|a [|b [|c [|d [|]]]]]; try discriminate.
  exists [[a; b; c]; [a; c; d]]. split; [done|].
  rewrite !Forall_cons in Hfi. destruct Hfi as (Ha & Hb & Hc & Hd & _).
  repeat constructor; done.
Qed.

Lemma for_each_extract_effect vertex_map bound recs : forall s,
  (forall k j, vertex_map !! k = Some j -> j < bound) ->
  exists ts,
    (for_each recs (extract_face vertex_map) s).2 = append_faces ts s /\
    Forall (Forall (fun i => i < bound + vertex_offset s)) ts.
Proof.
  induction recs as [|r recs IH]; intros s Hvm; simpl.
  - by exists [].
  - destruct (extract_face_effect vertex_map bound r s Hvm) as (ts1 & E1 & H1).
    unfold mbind, M_bind.
    destruct (extract_face vertex_map r s) as [[[]|] s1]; simpl in E1; subst s1.
    + destruct (IH (append_faces ts1 s) Hvm) as (ts2 & E2 & H2).
      exists (ts1 ++ ts2). rewrite E2, append_faces_app. split; [done|].
      apply Forall_app. split; [done|].
      destruct (append_faces_fields ts1 s) as (_ & _ & Ho & _).
      by rewrite Ho in H2.
    + by exists ts1.
Qed.

Lemma vertex_map_bound recs vertices vertex_map :
  collect_locations 0 recs [] ∅ = Some (vertices, vertex_map) ->
  forall k j, vertex_map !! k = Some j -> j < length vertices.
Proof.
  intros Hc k j Hj.
  destruct (vertex_map_lookup recs vertices vertex_map k Hc) as [-> Hk].
  rewrite Hk in Hj.
  destruct (recs !! k) as [r|] eqn:Er; [|done]. simpl in Hj.
  destruct (record_vertex r) as [v|] eqn:Ev; [|done].
  injection Hj as <-. by apply (vertex_table_take_lt recs k r v).
Qed.

(** What decoding one polyface mesh does. *)
Lemma decode_polyface_effect entity s :
  match collect_locations 0 (Polyline.vertices entity) [] ∅ with
  | None => decode_polyface entity s = (None, incr_valid_polyline s)
  | Some (vertices, vertex_map) =>
      exists ts,
        Forall (Forall (fun i => i < length vertices + vertex_offset s)) ts /\
        (decode_polyface entity s = (None, append_faces ts (incr_valid_polyline s)) \/
         decode_polyface entity s
         = (Some tt, advance_offset (length vertices)
                       (extend_vertices vertices
                          (append_faces ts (incr_valid_polyline s)))))
  end.
Proof.
  unfold decode_polyface.
  destruct (collect_locations 0 (Polyline.vertices entity) [] ∅)
    as [[vertices vertex_map]|] eqn:Ec; [|done].
  destruct (for_each_extract_effect vertex_map (length vertices)
              (Polyline.vertices entity) (incr_valid_polyline s)
              (vertex_map_bound _ _ _ Ec)) as (ts & E & Hts).
  exists ts. split; [done|].
  unfold mbind, M_bind, modify, lift; simpl.
  destruct (for_each (Polyline.vertices entity) (extract_face vertex_map)
              (incr_valid_polyline s)) as [[[]|] s1]; simpl in E; subst s1.
  - by right.
  - by left.
Qed.

End Triangles.

Lemma in_range_grow vs s : in_range s -> in_range (extend_vertices vs s).
Proof.
  unfold in_range. simpl. intros H. eapply Forall_impl; [exact H|].
  intros t Ht. eapply Forall_impl; [exact Ht|]. simpl. intros i Hi.
  rewrite length_app. lia.
Qed.

Lemma in_range_append t s :
  in_range s -> Forall (fun i => i < length (all_vertices s)) t ->
  in_range (append_face t s).
Proof.
  unfold in_range. simpl. intros H Ht. apply Forall_app. split; [done|].
  by constructor.
Qed.

Lemma add_face_in_range vs s : in_range s -> in_range (add_face vs s).2.
Proof.
  intros Hs. unfold add_face.
  destruct (3 <=? length vs); [|done].
  destruct (Nat.leb_spec 3 (length (dedup vs))) as [H3|?]; [|done].
  run_monad.
  destruct (Nat.eqb_spec (length (dedup vs)) 3) as [E|E]; simpl.
  - apply (in_range_append _ (extend_vertices (dedup vs) s));
      [by apply in_range_grow|].
    simpl. rewrite length_app. repeat constructor; lia.
  - apply (in_range_append _ (append_face _ (extend_vertices (dedup vs) s))).
    + apply (in_range_append _ (extend_vertices (dedup vs) s));
        [by apply in_range_grow|].
      simpl. rewrite length_app. repeat constructor; lia.
    + simpl. rewrite length_app. repeat constructor; lia.
Qed.

Lemma add_face_visited_any vs s :
  vertex_offset (add_face vs s).2 = vertex_offset s /\
  invalid_polyline (add_face vs s).2 = invalid_polyline s.
Proof.
  unfold add_face.
  destruct (3 <=? length vs); [|done].
  destruct (3 <=? length (dedup vs)); [|done].
  run_monad. by destruct (length (dedup vs) =? 3).
Qed.

Lemma decode_polyface_in_range entity s s' :
  in_range s -> vertex_offset s <= length (all_vertices s) ->
  decode_polyface entity s = (Some tt, s') ->
  in_range s' /\ vertex_offset s' <= length (all_vertices s').
Proof.
  intros Hs Ho Hd. pose proof (decode_polyface_effect entity s) as He.
  destruct (collect_locations 0 (Polyline.vertices entity) [] ∅)
    as [[vertices vertex_map]|]; [|rewrite He in Hd; discriminate].
  destruct He as (ts & Hts & [He|He]); rewrite He in Hd; [discriminate|].
  injection Hd as <-.
  destruct (append_faces_fields ts (incr_valid_polyline s)) as (Ev & Ef & Eo & _).
  unfold in_range. simpl. rewrite Ev, Ef, Eo. simpl. rewrite length_app.
  split; [|lia]. apply Forall_app. split.
  - eapply Forall_impl; [exact Hs|]. intros t Ht.
    eapply Forall_impl; [exact Ht|]. simpl. intros i Hi. lia.
  - eapply Forall_impl; [exact Hts|]. intros t Ht.
    eapply Forall_impl; [exact Ht|]. simpl. intros i Hi. lia.
Qed.

(** C2, as the code has it.  Every triangle appended by the direct-face and
    block loops has three pairwise distinct indices, each below the number of
    vertices appended at the moment the triangle is appended, and these two
    loops never raise.  A triangle of a polyface mesh is appended before the
    vertices of its entity and may repeat an index.  When the polyface loop
    starts, every index in the face buffer lies below the size of the vertex
    buffer and the offset does not exceed that size; a polyface mesh that is
    decoded without an exception from a state with these two properties
    leaves a state with these two properties, once its vertices are
    appended. *)
Theorem triangles_well_formed :
  log_ok init /\
  (forall (doc : Document) (s : St),
      log_ok s ->
      exists s', (direct_pipeline doc;; block_pipeline doc) s = (Some tt, s') /\
                 log_ok s') /\
  (forall doc : Document,
      exists s1,
        (direct_pipeline doc;; block_pipeline doc) init = (Some tt, s1) /\
        in_range s1 /\ vertex_offset s1 <= length (all_vertices s1)) /\
  (forall (entity : Polyline.t) (s s' : St),
      in_range s -> vertex_offset s <= length (all_vertices s) ->
      decode_polyface entity s = (Some tt, s') ->
      in_range s' /\ vertex_offset s' <= length (all_vertices s')).
Proof.
  split; [constructor|]. split; [|split].
  - intros doc s Hs. apply face_pipelines_invariant; [|done|done].
    intros vs t. apply add_face_log_ok.
  - intros doc.
    destruct (face_pipelines_invariant
                (fun s => in_range s /\ vertex_offset s = 0) doc)
      with (s := init) as (s1 & E1 & Hr1 & Ho1).
    + intros vs t (Hr & Ho). split; [by apply add_face_in_range|].
      destruct (add_face_visited_any vs t) as (Ho' & _). by rewrite Ho'.
    + by intros t (Hr & Ho).
    + split; [constructor|done].
    + exists s1. split; [done|]. split; [done|]. lia.
  - apply decode_polyface_in_range.
Qed.

Lemma triangles_well_formed_witness :
  (exists s', (direct_pipeline mixed_doc;; block_pipeline mixed_doc) init = (Some tt, s') /\
              log_ok s') /\
  (in_range (decode_polyface small_polyface init).2 /\
   vertex_offset (decode_polyface small_polyface init).2
   <= length (all_vertices (decode_polyface small_polyface init).2)).
Proof.
  split.
  - apply (proj1 (proj2 triangles_well_formed)). constructor.
  - apply (proj2 (proj2 (proj2 triangles_well_formed)) small_polyface init).
    + constructor.
    + simpl. lia.
    + reflexivity.
Defined.

(** C2, as stated, fails on a document with one polyface mesh: its triangles
    are appended while the vertex buffer is still empty, and the face record
    [1,1,2,0] gives a triangle that names vertex 0 twice. *)
Lemma triangles_well_formed_counterexample :
  all_faces (extract_geometry repeated_index_doc init).2 = [[0; 0; 1]; [0; 1; 2]] /\
  face_log (extract_geometry repeated_index_doc init).2 = [0; 0] /\
  ~ log_ok (extract_geometry repeated_index_doc init).2.
Proof.
  split; [reflexivity|]. split; [reflexivity|].
  intros H. unfold log_ok in H.
  change (all_faces (extract_geometry repeated_index_doc init).2)
    with [[0; 0; 1]; [0; 1; 2]] in H.
  change (face_log (extract_geometry repeated_index_doc init).2) with [0; 0] in H.
  apply Forall2_cons_1 in H as [(_ & _ & Hlt) _].
  apply Forall_cons_1 in Hlt as [Hlt _]. lia.
Qed.

(** ** Polyface meshes and the buffers *)

Lemma for_each_no_faces vertex_map recs s :
  (forall r, r ∈ recs ->
     Vertex.vtx0 r = Absent \/
     exists fi, resolve_indices vertex_map (vertex_offset s) (Vertex.attrs r) [] = Some fi
                /\ length fi < 3) ->
  for_each recs (extract_face vertex_map) s = (Some tt, s).
Proof.
  induction recs as [|r recs IH]; intros H; simpl; [done|].
  unfold mbind, M_bind.
  assert (E : extract_face vertex_map r s = (Some tt, s)).
  { destruct (H r) as [Ha|(fi & Hr & Hlen)]; [by left| |].
    - unfold extract_face. by rewrite Ha.
    - by apply extract_face_few with fi. }
  rewrite E. apply IH. intros r' Hr'. apply H. by right.
Qed.

(** C10. A polyface mesh with coordinate records and no face record that
    resolves to three or more indices: its vertices are appended, the face
    buffer stays, the valid polyface counter grows by one, and the vertex
    buffer is not empty afterwards.  After a direct face and such a mesh the
    buffers handed on hold a vertex (index 3) that no triangle names; such a
    mesh alone leaves a non-empty vertex buffer and an empty face buffer. *)
Theorem polyface_vertices_without_faces :
  (forall (entity : Polyline.t) (s : St) (vertices : list vertex)
          (vertex_map : gmap nat nat),
      Polyline.is_poly_face_mesh entity = true ->
      collect_locations 0 (Polyline.vertices entity) [] ∅ = Some (vertices, vertex_map) ->
      vertices <> [] ->
      (forall r, r ∈ Polyline.vertices entity ->
         Vertex.vtx0 r = Absent \/
         exists fi,
           resolve_indices vertex_map (vertex_offset s) (Vertex.attrs r) [] = Some fi
           /\ length fi < 3) ->
      exists s',
        process_polyline entity s = (Some tt, s') /\
        all_vertices s' = all_vertices s ++ vertices /\
        all_faces s' = all_faces s /\
        valid_polyline s' = valid_polyline s + 1 /\
        invalid_polyline s' = invalid_polyline s /\
        (length (all_vertices s') =? 0) = false) /\
  (exists vs fs s,
      dxf_to_stl_3dface face_and_bare_doc = Mesh vs fs s /\
      vs !! 3 = Some (5, 5, 5)%float /\
      forall t, t ∈ fs -> 3 ∉ t) /\
  (exists s,
      dxf_to_stl_3dface bare_doc = NoGeometry s /\
      length (all_vertices s) = 2 /\ all_faces s = [] /\ valid_polyline s = 1).
Proof.
  split; [|split].
  - intros entity s vertices vertex_map Hflag Hc Hne Hrecs.
    eexists. unfold process_polyline. rewrite Hflag.
    unfold try_except, decode_polyface, mbind, M_bind, modify, lift.
    rewrite Hc.
    rewrite (for_each_no_faces vertex_map (Polyline.vertices entity)
               (incr_valid_polyline s) Hrecs).
    split; [reflexivity|]. simpl. repeat split; try done.
    rewrite length_app. destruct vertices; [done|]. simpl.
    apply Nat.eqb_neq. lia.
  - eexists _, _, _. split; [vm_compute; reflexivity|]. split; [reflexivity|].
    intros t Ht. apply list_elem_of_singleton in Ht as ->.
    rewrite !not_elem_of_cons. repeat split; try lia. apply not_elem_of_nil.
  - eexists. split; [vm_compute; reflexivity|]. done.
Qed.

Lemma polyface_vertices_without_faces_witness :
  exists s',
    process_polyline bare_polyface init = (Some tt, s') /\
    all_vertices s' = all_vertices init ++ [(5, 5, 5)%float; (6, 5, 5)%float] /\
    all_faces s' = all_faces init /\
    valid_polyline s' = valid_polyline init + 1 /\
    invalid_polyline s' = invalid_polyline init /\
    (length (all_vertices s') =? 0) = false.
Proof.
  apply (proj1 polyface_vertices_without_faces bare_polyface init
           [(5, 5, 5)%float; (6, 5, 5)%float] (<[1 := 1]> (<[0 := 0]> ∅))).
  - reflexivity.
  - reflexivity.
  - discriminate.
  - intros r Hr. simpl in Hr.
    apply elem_of_cons in Hr as [->|Hr]; [by left|].
    apply elem_of_cons in Hr as [->|Hr]; [by left|].
    apply list_elem_of_singleton in Hr as ->.
    right. exists [0; 1]. split; [reflexivity|]. simpl. lia.
Defined.

(** ** Two defects of the polyface loop *)

(** Whenever decoding a polyface mesh raises, the entity has been counted as
    valid and is then counted as invalid as well; the loop goes on. *)
Lemma polyface_raise_counted entity s s1 :
  Polyline.is_poly_face_mesh entity = true ->
  decode_polyface entity s = (None, s1) ->
  process_polyline entity s = (Some tt, incr_invalid_polyline s1) /\
  invalid_polyline (incr_invalid_polyline s1) = invalid_polyline s + 1 /\
  valid_polyline (incr_invalid_polyline s1) = valid_polyline s + 1.
Proof.
  intros Hflag Hd. unfold process_polyline, try_except. rewrite Hflag, Hd.
  split; [done|].
  pose proof (decode_polyface_effect entity s) as He.
  destruct (collect_locations 0 (Polyline.vertices entity) [] ∅)
    as [[vertices vertex_map]|].
  - destruct He as (ts & _ & [He|He]); rewrite He in Hd; [|discriminate].
    injection Hd as <-.
    destruct (append_faces_fields ts (incr_valid_polyline s))
      as (_ & _ & _ & _ & _ & Ev & Ei).
    simpl. by rewrite Ev, Ei.
  - rewrite He in Hd. by injection Hd as <-.
Qed.

(** C5 (defect). A polyface mesh whose decoding raises is caught and counted
    as invalid, and the next entity is processed, but it has also been
    counted as valid: after the raising mesh alone both counters are 1, and
    after the raising mesh and one well-formed mesh the valid counter is 2. *)
Theorem raising_polyface_counted_valid :
  (exists s,
      process_polyline raising_polyface init = (Some tt, s) /\
      valid_polyline s = 1 /\ invalid_polyline s = 1) /\
  (exists s,
      extract_geometry raising_doc init = (Some tt, s) /\
      valid_polyline s = 2 /\ invalid_polyline s = 1 /\
      all_faces s = [[0; 1; 2]]).
Proof.
  split; eexists; (split; [vm_compute; reflexivity|]); done.
Qed.

(** C1 (defect). In a document with one direct face and then one polyface
    mesh, the offset used for the polyface mesh is 0 although the vertex
    buffer already holds the three vertices of the face: the triangle of the
    mesh is (0,1,2), which are the vertices of the direct face, while the
    vertices of the mesh itself sit at positions 3, 4 and 5. *)
Theorem polyface_offset_ignores_faces :
  (exists s,
      (direct_pipeline mixed_doc;; block_pipeline mixed_doc) init = (Some tt, s) /\
      vertex_offset s = 0 /\ length (all_vertices s) = 3) /\
  (exists s,
      dxf_to_stl_3dface mixed_doc
      = Mesh [(0, 0, 0)%float; (1, 0, 0)%float; (0, 1, 0)%float;
              (5, 5, 5)%float; (6, 5, 5)%float; (5, 6, 5)%float]
             [[0; 1; 2]; [0; 1; 2]] s).
Proof.
  split; eexists; [split; [vm_compute; reflexivity|done]|vm_compute; reflexivity].
Qed.

(** * Further properties of the conversion *)

(** ** More on the duplicate check *)

Section DedupMore.

Implicit Types (v u : vertex) (l : list vertex).

Lemma is_duplicate_false v l :
  is_duplicate v l = false <-> forall u, u ∈ l -> within_tol v u = false.
Proof.
  split.
  - intros H u Hu. destruct (within_tol v u) eqn:E; [|done].
    assert (is_duplicate v l = true) by (apply is_duplicate_spec; eauto).
    congruence.
  - intros H. destruct (is_duplicate v l) eqn:E; [|done].
    apply is_duplicate_spec in E as (u & Hu & Hc). rewrite (H u Hu) in Hc. done.
Qed.

Lemma separated_snoc l v :
  separated l -> (forall u, u ∈ l -> within_tol v u = false) -> separated (l ++ [v]).
Proof.
  intros Hl Hv i j a b Hij Hi Hj.
  assert (Hjlen : j < length (l ++ [v])) by (by eapply lookup_lt_Some).
  rewrite length_app in Hjlen. simpl in Hjlen.
  rewrite lookup_app_l in Hi by lia.
  destruct (decide (j < length l)) as [Hlt|Hge].
  - rewrite lookup_app_l in Hj by lia. by apply (Hl i j a b).
  - rewrite lookup_app_r in Hj by lia.
    replace (j - length l) with 0 in Hj by lia. injection Hj as <-.
    apply Hv. by eapply list_elem_of_lookup_2.
Qed.

Lemma separated_prefix l v : separated (l ++ [v]) -> separated l.
Proof.
  intros H i j a b Hij Hi Hj. apply (H i j a b Hij).
  - by apply lookup_app_l_Some.
  - by apply lookup_app_l_Some.
Qed.

Lemma separated_last l v u : separated (l ++ [v]) -> u ∈ l -> within_tol v u = false.
Proof.
  intros H Hu. apply list_elem_of_lookup in Hu as [i Hi].
  apply (H i (length l) u v).
  - by eapply lookup_lt_Some.
  - by apply lookup_app_l_Some.
  - rewrite lookup_app_r by lia. by rewrite Nat.sub_diag.
Qed.

Lemma dedup_separated l : separated (dedup l).
Proof.
  induction l as [|v l IH] using rev_ind.
  - intros i j u v _ Hi. done.
  - rewrite dedup_snoc. destruct (is_duplicate v (dedup l)) eqn:E; [done|].
    apply separated_snoc; [done|]. by apply is_duplicate_false.
Qed.


Lemma dedup_fixed l : separated l -> dedup l = l.
Proof.
  induction l as [|v l IH] using rev_ind; [done|].
  intros H. rewrite dedup_snoc, (IH (separated_prefix l v H)).
  assert (E : is_duplicate v l = false).
  { apply is_duplicate_false. intros u. by apply separated_last. }
  by rewrite E.
Qed.


End DedupMore.


(** X2. The duplicate check is idempotent, and it returns unchanged every
    list in which no point lies within the tolerance of an earlier one. *)
Theorem dedup_idempotent :
  (forall vertices : list vertex, dedup (dedup vertices) = dedup vertices) /\
  (forall vertices : list vertex, separated vertices -> dedup vertices = vertices).
Proof.
  split; [|apply dedup_fixed]. intros l. apply dedup_fixed, dedup_separated.
Qed.

Lemma dedup_idempotent_witness :
  dedup [(0, 0, 0)%float; (1, 0, 0)%float] = [(0, 0, 0)%float; (1, 0, 0)%float].
Proof.
  apply (proj2 dedup_idempotent). intros i j u v Hij Hi Hj.
  destruct j as [|[|j]]; [lia| |done].
  destruct i as [|i]; [|lia]. simpl in Hi, Hj.
  injection Hi as <-. injection Hj as <-. reflexivity.
Defined.


(** ** Loops with an additive effect *)

Section Additive.

Context {A : Type} (R : nat -> St -> St -> Prop) (w : A -> nat) (body : A -> M unit).
Context (R_refl : forall s, R 0 s s).
Context (R_trans : forall n m s1 s2 s3, R n s1 s2 -> R m s2 s3 -> R (n + m) s1 s3).
Context (R_body : forall a s, exists s', body a s = (Some tt, s') /\ R (w a) s s').

Lemma for_each_additive (l : list A) (s : St) :
  exists s', for_each l body s = (Some tt, s') /\ R (sum_list (w <$> l)) s s'.
Proof.
  revert s. induction l as [|a l IH]; intros s; csimpl.
  - exists s. split; [done|]. apply R_refl.
  - destruct (R_body a s) as (s1 & E1 & H1).
    destruct (IH s1) as (s2 & E2 & H2).
    exists s2. split; [unfold mbind, M_bind; by rewrite E1|].
    by apply R_trans with s1.
Qed.

End Additive.

Lemma sum_list_ones {A : Type} (l : list A) : sum_list ((fun _ => 1) <$> l) = length l.
Proof. induction l as [|a l IH]; csimpl; [done|]. by rewrite IH. Qed.

(** ** Accounting of the face loops *)

Section FaceAccounting.

Lemma faces_visited_refl s : faces_visited 0 s s.
Proof. unfold faces_visited. repeat split; try done; lia. Qed.

Lemma faces_visited_trans n m s1 s2 s3 :
  faces_visited n s1 s2 -> faces_visited m s2 s3 -> faces_visited (n + m) s1 s3.
Proof.
  intros (a1 & a2 & a3 & a4 & a5 & a6 & a7 & a8 & a9 & a10)
         (b1 & b2 & b3 & b4 & b5 & b6 & b7 & b8 & b9 & b10).
  unfold faces_visited. repeat split; try lia; try congruence.
  - by etrans.
  - by etrans.
Qed.

Lemma face_rejected_visited s s' : face_rejected s s' -> faces_visited 1 s s'.
Proof.
  intros (E1 & E2 & E3 & E4 & E5 & E6 & E7). unfold faces_visited.
  rewrite E1, E2. repeat split; try done; lia.
Qed.

Lemma face_appended_visited u s s' : face_appended u s s' -> faces_visited 1 s s'.
Proof.
  intros (E1 & E2 & _ & E4 & E5 & E6 & E7 & E8). unfold faces_visited.
  rewrite E1, length_app.
  assert (Hp : all_faces s `prefix_of` all_faces s'
               /\ ((length u = 3 /\ length (all_faces s') = length (all_faces s) + 1)
                   \/ (length u = 4 /\ length (all_faces s') = length (all_faces s) + 2))).
  { destruct E2 as [[E ->]|[E ->]]; rewrite length_app; simpl;
      (split; [by apply prefix_app_r|]); [left|right]; done. }
  destruct Hp as [Hp Hl].
  repeat split; try done; try lia. by apply prefix_app_r.
Qed.

Lemma add_face_visited vs s :
  length vs <= 4 ->
  exists s', add_face vs s = (Some tt, s') /\ faces_visited 1 s s'.
Proof.
  intros H4. destruct (decide (3 <= length (dedup vs))) as [H3|H3].
  - destruct (add_face_accept vs s H4 H3) as (s' & E & H).
    exists s'. split; [done|]. by eapply face_appended_visited.
  - destruct (add_face_reject vs s) as (s' & E & H); [lia|].
    exists s'. split; [done|]. by apply face_rejected_visited.
Qed.

Lemma process_3dface_visited entity s :
  exists s', process_3dface entity s = (Some tt, s') /\ faces_visited 1 s s'.
Proof.
  unfold process_3dface, try_except, mbind, M_bind, lift.
  destruct (collect_corners (Face.attrs entity) []) as [vs|] eqn:Ec.
  - destruct (add_face_visited vs s) as (s' & E & H).
    { apply collect_corners_length in Ec. simpl in Ec. lia. }
    exists s'. by rewrite E.
  - exists (incr_invalid_3dface s). split; [done|].
    apply face_rejected_visited. by unfold face_rejected.
Qed.

Lemma process_block_3dface_visited m block_entity s :
  exists s', process_block_3dface m block_entity s = (Some tt, s')
             /\ faces_visited 1 s s'.
Proof.
  unfold process_block_3dface, try_except, mbind, M_bind, lift.
  destruct (collect_block_corners m (Face.attrs block_entity) []) as [vs|] eqn:Ec.
  - destruct (add_face_visited vs s) as (s' & E & H).
    { apply collect_block_corners_length in Ec. simpl in Ec. lia. }
    exists s'. by rewrite E.
  - exists (incr_invalid_3dface s). split; [done|].
    apply face_rejected_visited. by unfold face_rejected.
Qed.

Lemma process_insert_visited doc i s :
  exists s', process_insert doc i s = (Some tt, s')
             /\ faces_visited (block_faces doc i) s s'.
Proof.
  unfold process_insert, block_faces.
  destruct (blocks doc !! Insert.name i) as [block|].
  - rewrite <- sum_list_ones.
    apply (for_each_additive faces_visited (fun _ => 1)
             (process_block_3dface (Insert.matrix44 i))
             faces_visited_refl faces_visited_trans).
    intros e t. apply process_block_3dface_visited.
  - exists s. split; [done|]. apply faces_visited_refl.
Qed.

Lemma direct_pipeline_visited doc s :
  exists s', direct_pipeline doc s = (Some tt, s')
             /\ faces_visited (length (query_3DFACE (modelspace doc))) s s'.
Proof.
  unfold direct_pipeline. rewrite <- sum_list_ones.
  apply (for_each_additive faces_visited (fun _ => 1) process_3dface
           faces_visited_refl faces_visited_trans).
  intros e t. apply process_3dface_visited.
Qed.

Lemma insert_loop_visited doc s :
  exists s', for_each (query_INSERT (modelspace doc)) (process_insert doc) s
             = (Some tt, s')
             /\ faces_visited (sum_list (block_faces doc <$> query_INSERT (modelspace doc)))
                              s s'.
Proof.
  apply (for_each_additive faces_visited (block_faces doc) (process_insert doc)
           faces_visited_refl faces_visited_trans).
  intros i t. apply process_insert_visited.
Qed.

End FaceAccounting.

(** ** The counting loop and the guards on its counts *)

Section Counting.

Lemma count_fold_lookup (k : string) (msp : list entity) : forall m : gmap string nat,
  fold_left
    (fun entity_counts entity =>
       let etype := dxftype entity in
       <[etype := default 0 (entity_counts !! etype) + 1]> entity_counts)
    msp m !! k =
  match length (filter (fun e => dxftype e = k) msp) with
  | 0 => m !! k
  | S n => Some (default 0 (m !! k) + S n)
  end.
Proof.
  induction msp as [|e msp IH]; intros m; [done|].
  simpl. rewrite IH. rewrite filter_cons.
  destruct (decide (dxftype e = k)) as [->|Hne].
  - rewrite lookup_insert_eq. simpl.
    destruct (length (filter _ msp)); f_equal; lia.
  - rewrite lookup_insert_ne by done. done.
Qed.

Lemma count_entities_lookup (msp : list entity) (k : string) :
  count_entities msp !! k =
  match length (filter (fun e => dxftype e = k) msp) with
  | 0 => None
  | S n => Some (S n)
  end.
Proof.
  unfold count_entities. rewrite count_fold_lookup, lookup_empty.
  by destruct (length _).
Qed.

Lemma count_entities_get (msp : list entity) (k : string) :
  default 0 (count_entities msp !! k) = length (filter (fun e => dxftype e = k) msp).
Proof. rewrite count_entities_lookup. by destruct (length _). Qed.

Lemma query_3DFACE_count msp :
  length (query_3DFACE msp) <= length (filter (fun e => dxftype e = "3DFACE") msp).
Proof.
  induction msp as [|e msp IH]; [done|]. rewrite filter_cons.
  destruct e; simpl; try (case_decide; simpl); lia.
Qed.

Lemma query_INSERT_count msp :
  length (query_INSERT msp) <= length (filter (fun e => dxftype e = "INSERT") msp).
Proof.
  induction msp as [|e msp IH]; [done|]. rewrite filter_cons.
  destruct e; simpl; try (case_decide; simpl); lia.
Qed.

Lemma query_POLYLINE_count msp :
  length (query_POLYLINE msp) <= length (filter (fun e => dxftype e = "POLYLINE") msp).
Proof.
  induction msp as [|e msp IH]; [done|]. rewrite filter_cons.
  destruct e; simpl; try (case_decide; simpl); lia.
Qed.

Lemma block_pipeline_unguarded doc s :
  block_pipeline doc s = for_each (query_INSERT (modelspace doc)) (process_insert doc) s.
Proof.
  unfold block_pipeline. rewrite count_entities_get.
  destruct (Nat.ltb_spec 0 (length (filter (fun e => dxftype e = "INSERT")
                                       (modelspace doc)))) as [|H0]; [done|].
  pose proof (query_INSERT_count (modelspace doc)) as Hq.
  destruct (query_INSERT (modelspace doc)); [done|simpl in Hq; lia].
Qed.

Lemma polyface_pipeline_unguarded doc s :
  polyface_pipeline doc s = for_each (query_POLYLINE (modelspace doc)) process_polyline s.
Proof.
  unfold polyface_pipeline. rewrite count_entities_get.
  destruct (Nat.ltb_spec 0 (length (filter (fun e => dxftype e = "POLYLINE")
                                       (modelspace doc)))) as [|H0]; [done|].
  pose proof (query_POLYLINE_count (modelspace doc)) as Hq.
  destruct (query_POLYLINE (modelspace doc)); [done|simpl in Hq; lia].
Qed.

End Counting.

(** X3. The two face loops visit every direct 3DFACE and every 3DFACE of the
    block of every INSERT whose block is defined, and count each of them
    exactly once, as valid or as invalid.  Each valid face adds two more
    vertices than triangles and one or two triangles; nothing already in the
    buffers is removed or changed; the polyface offset and counters are not
    touched.  Started from the initial state this gives
    valid + invalid = number of face entities, |V| = |F| + 2 valid and
    valid <= |F| <= 2 valid. *)
Theorem face_loops_account (doc : Document) :
  (forall s, exists s',
      (direct_pipeline doc;; block_pipeline doc) s = (Some tt, s') /\
      faces_visited (face_entities doc) s s') /\
  (exists s',
      (direct_pipeline doc;; block_pipeline doc) init = (Some tt, s') /\
      valid_3dface s' + invalid_3dface s' = face_entities doc /\
      length (all_vertices s') = length (all_faces s') + 2 * valid_3dface s' /\
      valid_3dface s' <= length (all_faces s') /\
      length (all_faces s') <= 2 * valid_3dface s' /\
      vertex_offset s' = 0).
Proof.
  assert (H : forall s, exists s',
      (direct_pipeline doc;; block_pipeline doc) s = (Some tt, s') /\
      faces_visited (face_entities doc) s s').
  { intros s. destruct (direct_pipeline_visited doc s) as (s1 & E1 & H1).
    assert (exists s', block_pipeline doc s1 = (Some tt, s') /\
              faces_visited (sum_list (block_faces doc <$> query_INSERT (modelspace doc)))
                            s1 s') as (s2 & E2 & H2).
    { rewrite block_pipeline_unguarded. apply insert_loop_visited. }
    exists s2. split; [unfold mbind, M_bind; by rewrite E1|].
    unfold face_entities. by apply faces_visited_trans with s1. }
  split; [done|].
  destruct (H init) as (s' & E & a1 & a2 & a3 & a4 & a5 & a6 & a7 & a8 & a9 & a10).
  exists s'. split; [done|]. simpl in *. repeat split; lia.
Qed.

Lemma face_loops_account_witness :
  exists s',
    (direct_pipeline scenario_B;; block_pipeline scenario_B) init = (Some tt, s') /\
    faces_visited 1 init s'.
Proof. exact (proj1 (face_loops_account scenario_B) init). Defined.

(** X4. [entity_counts.get(k, 0)] is the number of modelspace entities whose
    type is [k], and [k] is a key of [entity_counts] exactly when some entity
    has that type. *)
Theorem entity_counts_spec (msp : list entity) (k : string) :
  default 0 (count_entities msp !! k) = length (filter (fun e => dxftype e = k) msp) /\
  (is_Some (count_entities msp !! k) <-> exists e, e ∈ msp /\ dxftype e = k).
Proof.
  split; [apply count_entities_get|].
  rewrite count_entities_lookup.
  destruct (filter (fun e => dxftype e = k) msp) as [|e l] eqn:E; simpl.
  - split; [by intros [? ?]|]. intros (e & He & Hk).
    assert (Hin : e ∈ filter (fun e => dxftype e = k) msp)
      by (by apply list_elem_of_filter).
    rewrite E in Hin. by apply elem_of_nil in Hin.
  - split; [|by eexists]. intros _. exists e.
    assert (Hin : e ∈ filter (fun e => dxftype e = k) msp)
      by (rewrite E; by left).
    apply list_elem_of_filter in Hin as [Hk He]. done.
Qed.

Lemma entity_counts_spec_witness :
  is_Some (count_entities (modelspace mixed_doc) !! "POLYLINE").
Proof.
  apply (proj2 (entity_counts_spec (modelspace mixed_doc) "POLYLINE")).
  exists (EPOLYLINE small_polyface). split; [|reflexivity].
  apply list_elem_of_In. simpl. right. left. reflexivity.
Defined.

(** ** What the extraction depends on *)

Lemma extract_geometry_unguarded doc s :
  extract_geometry doc s =
  (for_each (query_3DFACE (modelspace doc)) process_3dface;;
   for_each (query_INSERT (modelspace doc)) (process_insert doc);;
   for_each (query_POLYLINE (modelspace doc)) process_polyline) s.
Proof.
  unfold extract_geometry, direct_pipeline, mbind, M_bind.
  destruct (for_each (query_3DFACE (modelspace doc)) process_3dface s) as [[[]|] s1];
    [|done].
  rewrite block_pipeline_unguarded.
  destruct (for_each (query_INSERT (modelspace doc)) (process_insert doc) s1)
    as [[[]|] s2]; [|done].
  apply polyface_pipeline_unguarded.
Qed.

Lemma for_each_ext {A : Type} (f g : A -> M unit) (l : list A) s :
  (forall a t, f a t = g a t) -> for_each l f s = for_each l g s.
Proof.
  intros H. revert s. induction l as [|a l IH]; intros s; simpl; [done|].
  unfold mbind, M_bind. rewrite H. destruct (g a s) as [[[]|] s1]; [apply IH|done].
Qed.

Lemma query_3DFACE_known msp : query_3DFACE (filter (fun e => known e = true) msp) = query_3DFACE msp.
Proof.
  induction msp as [|e msp IH]; [done|]. rewrite filter_cons.
  destruct e; simpl; try (case_decide; [|done]); simpl; by rewrite ?IH.
Qed.

Lemma query_INSERT_known msp : query_INSERT (filter (fun e => known e = true) msp) = query_INSERT msp.
Proof.
  induction msp as [|e msp IH]; [done|]. rewrite filter_cons.
  destruct e; simpl; try (case_decide; [|done]); simpl; by rewrite ?IH.
Qed.

Lemma query_POLYLINE_known msp : query_POLYLINE (filter (fun e => known e = true) msp) = query_POLYLINE msp.
Proof.
  induction msp as [|e msp IH]; [done|]. rewrite filter_cons.
  destruct e; simpl; try (case_decide; [|done]); simpl; by rewrite ?IH.
Qed.

(** X5. The extraction depends on the modelspace only through its 3DFACE
    entities, its INSERT entities and its POLYLINE entities, each list in
    document order: two documents with the same blocks and the same three
    lists are converted alike, whatever other entities they hold and however
    entities of different kinds are interleaved.  The tests
    [insert_count > 0] and [polyline_count > 0] never change the result, and
    removing every entity of another kind changes nothing. *)
Theorem extraction_by_kind :
  (forall doc s,
      extract_geometry doc s =
      (for_each (query_3DFACE (modelspace doc)) process_3dface;;
       for_each (query_INSERT (modelspace doc)) (process_insert doc);;
       for_each (query_POLYLINE (modelspace doc)) process_polyline) s) /\
  (forall doc doc',
      blocks doc = blocks doc' ->
      query_3DFACE (modelspace doc) = query_3DFACE (modelspace doc') ->
      query_INSERT (modelspace doc) = query_INSERT (modelspace doc') ->
      query_POLYLINE (modelspace doc) = query_POLYLINE (modelspace doc') ->
      (forall s, extract_geometry doc s = extract_geometry doc' s) /\
      dxf_to_stl_3dface doc = dxf_to_stl_3dface doc') /\
  (forall doc,
      dxf_to_stl_3dface
        (mkDocument (filter (fun e => known e = true) (modelspace doc)) (blocks doc))
      = dxf_to_stl_3dface doc).
Proof.
  assert (H2 : forall doc doc',
      blocks doc = blocks doc' ->
      query_3DFACE (modelspace doc) = query_3DFACE (modelspace doc') ->
      query_INSERT (modelspace doc) = query_INSERT (modelspace doc') ->
      query_POLYLINE (modelspace doc) = query_POLYLINE (modelspace doc') ->
      (forall s, extract_geometry doc s = extract_geometry doc' s) /\
      dxf_to_stl_3dface doc = dxf_to_stl_3dface doc').
  { intros doc doc' Hb H3 Hi Hp.
    assert (E : forall s, extract_geometry doc s = extract_geometry doc' s).
    { intros s. rewrite !extract_geometry_unguarded, H3, Hi, Hp.
      unfold mbind, M_bind.
      destruct (for_each (query_3DFACE (modelspace doc')) process_3dface s)
        as [[[]|] s1]; [|done].
      rewrite (for_each_ext (process_insert doc) (process_insert doc')); [done|].
      intros i t. unfold process_insert. by rewrite Hb. }
    split; [done|]. unfold dxf_to_stl_3dface. by rewrite E. }
  split; [apply extract_geometry_unguarded|]. split; [done|].
  intros doc. apply H2; simpl;
    [done|apply query_3DFACE_known|apply query_INSERT_known|apply query_POLYLINE_known].
Qed.

Lemma extraction_by_kind_witness :
  dxf_to_stl_3dface shuffled_doc = dxf_to_stl_3dface mixed_doc.
Proof.
  apply (proj1 (proj2 extraction_by_kind) shuffled_doc mixed_doc); reflexivity.
Defined.

(** ** Accounting of the polyface loop *)

Section PolyfaceAccounting.

Lemma polyfaces_visited_refl s : polyfaces_visited 0 s s.
Proof. unfold polyfaces_visited. repeat split; try done; lia. Qed.

Lemma polyfaces_visited_trans n m s1 s2 s3 :
  polyfaces_visited n s1 s2 -> polyfaces_visited m s2 s3 ->
  polyfaces_visited (n + m) s1 s3.
Proof.
  intros (a1 & a2 & a3 & a4 & a5 & a6 & a7 & a8)
         (b1 & b2 & b3 & b4 & b5 & b6 & b7 & b8).
  unfold polyfaces_visited. repeat split; try lia; try congruence.
  - by etrans.
  - by etrans.
Qed.

Lemma process_polyline_visited entity s :
  exists s', process_polyline entity s = (Some tt, s') /\
             polyfaces_visited (polyface_weight entity) s s'.
Proof.
  unfold process_polyline, polyface_weight, try_except.
  destruct (Polyline.is_poly_face_mesh entity);
    [|exists s; split; [done|apply polyfaces_visited_refl]].
  pose proof (decode_polyface_effect entity s) as He.
  destruct (collect_locations 0 (Polyline.vertices entity) [] ∅)
    as [[vertices vertex_map]|].
  - destruct He as (ts & _ & [He|He]); rewrite He;
      destruct (append_faces_fields ts (incr_valid_polyline s))
        as (Ev & Ef & Eo & E1 & E2 & E3 & E4);
      eexists; (split; [reflexivity|]); unfold polyfaces_visited; simpl;
      rewrite ?Ev, ?Ef, ?Eo, ?E1, ?E2, ?E3, ?E4, ?length_app; simpl;
      repeat split; try lia; try done; try (by apply prefix_app_r).
  - rewrite He. eexists. split; [reflexivity|].
    unfold polyfaces_visited; simpl. repeat split; try lia; done.
Qed.

Lemma polyface_pipeline_visited doc s :
  exists s', polyface_pipeline doc s = (Some tt, s') /\
             polyfaces_visited (polyface_entities doc) s s'.
Proof.
  rewrite polyface_pipeline_unguarded. unfold polyface_entities.
  apply (for_each_additive polyfaces_visited polyface_weight process_polyline
           polyfaces_visited_refl polyfaces_visited_trans).
  intros p t. apply process_polyline_visited.
Qed.

End PolyfaceAccounting.

(** X6. The polyface loop counts every POLYLINE flagged as polyface mesh as
    valid, whether or not its decoding raises, and counts at most that many
    as invalid; POLYLINE entities without the flag are not counted.  The
    offset advances by exactly the number of vertices the loop appends, also
    across entities that raise; nothing already in the buffers is removed or
    changed; the face counters are not touched. *)
Theorem polyface_loop_account (doc : Document) (s : St) :
  exists s',
    polyface_pipeline doc s = (Some tt, s') /\
    valid_polyline s' = valid_polyline s + polyface_entities doc /\
    invalid_polyline s <= invalid_polyline s' /\
    invalid_polyline s' <= invalid_polyline s + polyface_entities doc /\
    length (all_vertices s') + vertex_offset s
    = length (all_vertices s) + vertex_offset s' /\
    all_vertices s `prefix_of` all_vertices s' /\
    all_faces s `prefix_of` all_faces s' /\
    valid_3dface s' = valid_3dface s /\
    invalid_3dface s' = invalid_3dface s.
Proof. apply polyface_pipeline_visited. Qed.

(** X7. At the end of the extraction of any document: the face counters add
    up to the number of face entities visited; the valid polyface counter is
    the number of polyface meshes and bounds the invalid one; and the final
    vertex buffer is longer than the polyface offset by exactly the number of
    vertices that the two face loops appended. *)
Theorem extraction_account (doc : Document) :
  exists s1 s,
    (direct_pipeline doc;; block_pipeline doc) init = (Some tt, s1) /\
    extract_geometry doc init = (Some tt, s) /\
    valid_3dface s + invalid_3dface s = face_entities doc /\
    valid_polyline s = polyface_entities doc /\
    invalid_polyline s <= valid_polyline s /\
    length (all_vertices s) = vertex_offset s + length (all_vertices s1) /\
    all_vertices s1 `prefix_of` all_vertices s /\
    all_faces s1 `prefix_of` all_faces s.
Proof.
  destruct (direct_pipeline_visited doc init) as (s0 & E0 & H0).
  assert (exists s', block_pipeline doc s0 = (Some tt, s') /\
            faces_visited (sum_list (block_faces doc <$> query_INSERT (modelspace doc)))
                          s0 s') as (s1 & E1 & H1).
  { rewrite block_pipeline_unguarded. apply insert_loop_visited. }
  pose proof (faces_visited_trans _ _ _ _ _ H0 H1) as Hf.
  destruct (polyface_pipeline_visited doc s1) as (s & E & Hp).
  exists s1, s. unfold extract_geometry, mbind, M_bind. rewrite E0, E1.
  split; [done|]. split; [done|].
  destruct Hf as (a1 & a2 & a3 & a4 & a5 & a6 & a7 & a8 & a9 & a10).
  destruct Hp as (b1 & b2 & b3 & b4 & b5 & b6 & b7 & b8).
  simpl in *. unfold face_entities. repeat split; try lia; done.
Qed.

(** ** Indices of the final mesh *)

Section InRange.

Lemma process_polyline_in_range entity s :
  exists s',
    process_polyline entity s = (Some tt, s') /\
    invalid_polyline s <= invalid_polyline s' /\
    (invalid_polyline s' = invalid_polyline s ->
     in_range s -> vertex_offset s <= length (all_vertices s) ->
     in_range s' /\ vertex_offset s' <= length (all_vertices s')).
Proof.
  destruct (process_polyline_visited entity s) as (s' & E & _ & Hle & _).
  exists s'. split; [done|]. split; [done|]. intros Hinv Hr Ho.
  pose proof E as E0. unfold process_polyline in E.
  destruct (Polyline.is_poly_face_mesh entity) eqn:Hflag;
    [|injection E as <-; done].
  unfold try_except in E.
  destruct (decode_polyface entity s) as [[[]|] s1] eqn:Ed.
  - injection E as <-. by apply (decode_polyface_in_range entity s).
  - destruct (polyface_raise_counted entity s s1 Hflag Ed) as (E' & Hi & _).
    rewrite E' in E0. injection E0 as <-. lia.
Qed.

Lemma polyline_loop_in_range l : forall s,
  exists s',
    for_each l process_polyline s = (Some tt, s') /\
    invalid_polyline s <= invalid_polyline s' /\
    (invalid_polyline s' = invalid_polyline s ->
     in_range s -> vertex_offset s <= length (all_vertices s) ->
     in_range s' /\ vertex_offset s' <= length (all_vertices s')).
Proof.
  induction l as [|p l IH]; intros s; simpl.
  - exists s. by repeat split.
  - destruct (process_polyline_in_range p s) as (s1 & E1 & L1 & H1).
    destruct (IH s1) as (s2 & E2 & L2 & H2).
    exists s2. split; [unfold mbind, M_bind; by rewrite E1|].
    split; [lia|]. intros Hinv Hr Ho.
    destruct H1 as [Hr1 Ho1]; [lia|done|done|].
    apply H2; [lia|done|done].
Qed.

End InRange.

(** X8. For every document, if the extraction ends with no polyface mesh
    counted as invalid, then every index of every face in the final face
    buffer points into the final vertex buffer. *)
Theorem mesh_indices_in_range (doc : Document) (s : St) :
  extract_geometry doc init = (Some tt, s) ->
  invalid_polyline s = 0 ->
  in_range s.
Proof.
  intros E Hinv.
  destruct (face_pipelines_invariant
              (fun s => in_range s /\ vertex_offset s = 0 /\ invalid_polyline s = 0) doc)
    with (s := init) as (s1 & E1 & Hr1 & Ho1 & Hi1).
  { intros vs t (Hr & Ho & Hi). split; [by apply add_face_in_range|].
    destruct (add_face_visited_any vs t) as (Ho' & Hi'). by rewrite Ho', Hi'. }
  { by intros t (Hr & Ho & Hi). }
  { repeat split. constructor. }
  destruct (polyline_loop_in_range (query_POLYLINE (modelspace doc)) s1)
    as (s2 & E2 & L2 & H2).
  unfold extract_geometry, mbind, M_bind in E.
  unfold mbind, M_bind in E1.
  destruct (direct_pipeline doc init) as [[[]|] s0]; [|discriminate].
  rewrite E1, polyface_pipeline_unguarded, E2 in E. injection E as <-.
  apply H2; [lia|done|lia].
Qed.

Lemma mesh_indices_in_range_witness : in_range (extract_geometry mixed_doc init).2.
Proof.
  apply (mesh_indices_in_range mixed_doc); [vm_compute; reflexivity|reflexivity].
Defined.

(** ** A polyface mesh and its own vertices *)

Section OwnVertices.

Context (Q : nat -> Prop).

Lemma resolve_indices_forall vertex_map offset attrs : forall acc fi,
  (forall k j, vertex_map !! k = Some j -> Q (j + offset)) ->
  resolve_indices vertex_map offset attrs acc = Some fi ->
  Forall Q acc -> Forall Q fi.
Proof.
  induction attrs as [|a attrs IH]; intros acc fi Hvm H Hacc; simpl in H.
  - by injection H as <-.
  - destruct a as [| |[idx|]]; try discriminate; try (by eapply IH).
    destruct (idx =? 0)%Z; [by eapply IH|].
    destruct (vertex_map !! Z.to_nat (Z.abs idx - 1)) as [j|] eqn:E; [|by eapply IH].
    eapply IH; [done..|]. apply Forall_app. split; [done|].
    constructor; [|done]. by apply Hvm in E.
Qed.

Lemma extract_face_forall vertex_map vertex s :
  (forall k j, vertex_map !! k = Some j -> Q (j + vertex_offset s)) ->
  exists ts,
    (extract_face vertex_map vertex s).2 = append_faces ts s /\ Forall (Forall Q) ts.
Proof.
  intros Hvm. unfold extract_face.
  destruct (Vertex.vtx0 vertex); [by exists []..|].
  unfold mbind, M_bind, gets, lift.
  destruct (resolve_indices vertex_map (vertex_offset s) (Vertex.attrs vertex) [])
    as [fi|] eqn:Er; [|by exists []].
  assert (Hfi : Forall Q fi).
  { eapply resolve_indices_forall; [done..|constructor]. }
  destruct (3 <=? length fi); [|by exists []].
  destruct (length fi =? 3).
  { exists [fi]. split; [done|]. by constructor. }
  destruct (Nat.eqb_spec (length fi) 4) as [E4|]; [|by exists []].
  destruct fi as [|a [|b [|c [|d [|]]]]]; try discriminate.
  exists [[a; b; c]; [a; c; d]]. split; [done|].
  rewrite !Forall_cons in Hfi. destruct Hfi as (Ha & Hb & Hc & Hd & _).
  repeat constructor; done.
Qed.

Lemma for_each_extract_forall vertex_map recs : forall s,
  (forall k j, vertex_map !! k = Some j -> Q (j + vertex_offset s)) ->
  exists ts,
    (for_each recs (extract_face vertex_map) s).2 = append_faces ts s /\
    Forall (Forall Q) ts.
Proof.
  induction recs as [|r recs IH]; intros s Hvm; simpl.
  - by exists [].
  - destruct (extract_face_forall vertex_map r s Hvm) as (ts1 & E1 & H1).
    unfold mbind, M_bind.
    destruct (extract_face vertex_map r s) as [[[]|] s1]; simpl in E1; subst s1.
    + destruct (append_faces_fields ts1 s) as (_ & _ & Ho & _).
      destruct (IH (append_faces ts1 s)) as (ts2 & E2 & H2).
      { intros k j Hj. rewrite Ho. by apply (Hvm k). }
      exists (ts1 ++ ts2). rewrite E2, append_faces_app. split; [done|].
      apply Forall_app. by split.
    + by exists ts1.
Qed.

End OwnVertices.

(** X9. A polyface mesh that is decoded without an exception from a state in
    which the offset equals the length of the vertex buffer: its vertex table
    is appended behind the buffer, the offset again equals the length of the
    buffer, and every index of every triangle it appends denotes a vertex of
    its own table, stored at that index of the new buffer.  The offset equals
    the length of the buffer after the face loops of a document without face
    entities, and every turn of the polyface loop, raising or not, keeps the
    two equal. *)
Theorem polyface_own_vertices :
  (forall (entity : Polyline.t) (s s' : St),
      vertex_offset s = length (all_vertices s) ->
      decode_polyface entity s = (Some tt, s') ->
      exists ts,
        all_vertices s' = all_vertices s ++ vertex_table (Polyline.vertices entity) /\
        all_faces s' = all_faces s ++ ts /\
        vertex_offset s' = length (all_vertices s') /\
        forall t i, t ∈ ts -> i ∈ t ->
          length (all_vertices s) <= i /\
          exists v,
            vertex_table (Polyline.vertices entity) !! (i - length (all_vertices s))
            = Some v /\
            all_vertices s' !! i = Some v) /\
  (forall doc : Document,
      face_entities doc = 0 ->
      exists s1,
        (direct_pipeline doc;; block_pipeline doc) init = (Some tt, s1) /\
        vertex_offset s1 = length (all_vertices s1)) /\
  (forall (entity : Polyline.t) (s : St),
      vertex_offset s = length (all_vertices s) ->
      vertex_offset (process_polyline entity s).2
      = length (all_vertices (process_polyline entity s).2)).
Proof.
  split; [|split].
  - intros entity s s' Ho Hd. unfold decode_polyface in Hd.
    unfold mbind, M_bind, modify, lift in Hd.
    destruct (collect_locations 0 (Polyline.vertices entity) [] ∅)
      as [[vertices vertex_map]|] eqn:Ec; [|discriminate].
    pose proof (vertex_map_bound _ _ _ Ec) as Hb.
    destruct (vertex_map_lookup _ _ _ 0 Ec) as [Ev _].
    destruct (for_each_extract_forall
                (fun i => vertex_offset s <= i < vertex_offset s + length vertices)
                vertex_map (Polyline.vertices entity) (incr_valid_polyline s))
      as (ts & E & Hts).
    { intros k j Hj. apply Hb in Hj. simpl. lia. }
    destruct (for_each (Polyline.vertices entity) (extract_face vertex_map)
                (incr_valid_polyline s)) as [[[]|] s1]; [|discriminate].
    simpl in E. subst s1. injection Hd as <-.
    destruct (append_faces_fields ts (incr_valid_polyline s)) as (Ea & Ef & Eo & _).
    exists ts. simpl. rewrite Ea, Ef, Eo. simpl. rewrite <- Ev.
    split; [done|]. split; [done|]. split; [rewrite length_app; lia|].
    intros t i Ht Hi.
    rewrite Forall_forall in Hts. specialize (Hts t Ht).
    rewrite Forall_forall in Hts. specialize (Hts i Hi). simpl in Hts.
    split; [lia|].
    destruct (lookup_lt_is_Some_2 vertices (i - length (all_vertices s))) as [v Hv];
      [lia|].
    exists v. split; [done|]. rewrite lookup_app_r by lia. done.
  - intros doc H0.
    destruct (direct_pipeline_visited doc init) as (s0 & E0 & F0).
    assert (exists s', block_pipeline doc s0 = (Some tt, s') /\
              faces_visited (sum_list (block_faces doc <$> query_INSERT (modelspace doc)))
                            s0 s') as (s1 & E1 & F1).
    { rewrite block_pipeline_unguarded. apply insert_loop_visited. }
    pose proof (faces_visited_trans _ _ _ _ _ F0 F1) as Hf.
    fold (face_entities doc) in Hf. rewrite H0 in Hf.
    destruct Hf as (a1 & a2 & a3 & a4 & a5 & a6 & a7 & a8 & a9 & a10).
    exists s1. split; [unfold mbind, M_bind; by rewrite E0|].
    simpl in *. lia.
  - intros entity s Ho.
    destruct (process_polyline_visited entity s) as (s' & E & _ & _ & _ & Hv & _).
    rewrite E. simpl. lia.
Qed.

Lemma polyface_own_vertices_witness :
  exists ts,
    all_vertices (decode_polyface small_polyface init).2
    = all_vertices init ++ vertex_table (Polyline.vertices small_polyface) /\
    all_faces (decode_polyface small_polyface init).2 = all_faces init ++ ts /\
    vertex_offset (decode_polyface small_polyface init).2
    = length (all_vertices (decode_polyface small_polyface init).2) /\
    forall t i, t ∈ ts -> i ∈ t ->
      length (all_vertices init) <= i /\
      exists v,
        vertex_table (Polyline.vertices small_polyface) !! (i - length (all_vertices init))
        = Some v /\
        all_vertices (decode_polyface small_polyface init).2 !! i = Some v.
Proof.
  apply (proj1 polyface_own_vertices small_polyface init); reflexivity.
Defined.

(** ** A face with an attribute that raises *)

Lemma collect_corners_raising attrs : forall acc,
  Raising ∈ attrs -> collect_corners attrs acc = None.
Proof.
  induction attrs as [|a attrs IH]; intros acc H; [by apply elem_of_nil in H|].
  apply elem_of_cons in H as [<-|H]; [done|].
  simpl. destruct a as [| |[pt|]]; try done; by apply IH.
Qed.

Lemma collect_block_corners_raising m attrs : forall acc,
  Raising ∈ attrs -> collect_block_corners m attrs acc = None.
Proof.
  induction attrs as [|a attrs IH]; intros acc H; [by apply elem_of_nil in H|].
  apply elem_of_cons in H as [<-|H]; [done|].
  simpl. destruct a as [| |[pt|]]; try done; by apply IH.
Qed.

(** X10. A face, direct or nested in a block, one of whose four corner
    attributes raises when read is counted as invalid and leaves everything
    else as it was, whatever its other corners are: three good corners in
    front of the raising attribute are not used. *)
Theorem face_attribute_raises :
  (forall (entity : Face.dxf) (s : St),
      Raising ∈ Face.attrs entity ->
      process_3dface entity s = (Some tt, incr_invalid_3dface s)) /\
  (forall (insert_matrix : Vec3.t -> Vec3.t) (block_entity : Face.dxf) (s : St),
      Raising ∈ Face.attrs block_entity ->
      process_block_3dface insert_matrix block_entity s
      = (Some tt, incr_invalid_3dface s)).
Proof.
  split.
  - intros entity s H. unfold process_3dface, try_except, mbind, M_bind, lift.
    by rewrite (collect_corners_raising _ _ H).
  - intros m e s H. unfold process_block_3dface, try_except, mbind, M_bind, lift.
    by rewrite (collect_block_corners_raising m _ _ H).
Qed.

Lemma face_attribute_raises_witness :
  process_3dface raising_corner_face init = (Some tt, incr_invalid_3dface init).
Proof.
  apply (proj1 face_attribute_raises).
  apply list_elem_of_In. simpl. do 3 right. left. reflexivity.
Defined.

(** ** The inspection and the conversion *)

Section Inspection.

Lemma contains_false msp k :
  contains (count_entities msp) k = false ->
  filter (fun e => dxftype e = k) msp = [].
Proof.
  unfold contains. rewrite count_entities_lookup.
  destruct (filter (fun e => dxftype e = k) msp); [done|discriminate].
Qed.

Lemma count_polyfaces_fold l : forall c,
  fold_left
    (fun polyface_count entity =>
       if Polyline.is_poly_face_mesh entity then polyface_count + 1 else polyface_count)
    l c = c + sum_list (polyface_weight <$> l).
Proof.
  induction l as [|p l IH]; intros c; csimpl; [lia|].
  rewrite IH. unfold polyface_weight. destruct (Polyline.is_poly_face_mesh p); lia.
Qed.

Lemma count_polyfaces_weight l : count_polyfaces l = sum_list (polyface_weight <$> l).
Proof. unfold count_polyfaces. by rewrite count_polyfaces_fold. Qed.

Lemma unflagged_loop l s :
  sum_list (polyface_weight <$> l) = 0 -> for_each l process_polyline s = (Some tt, s).
Proof.
  induction l as [|p l IH]; csimpl; [done|]. intros H.
  unfold mbind, M_bind, process_polyline. unfold polyface_weight in H at 1.
  destruct (Polyline.is_poly_face_mesh p); [lia|]. apply IH. lia.
Qed.

End Inspection.

(** X11. When the inspection finds no 3D entity in the modelspace (no
    INSERT, 3DSOLID, MESH or 3DFACE and no POLYLINE flagged as polyface
    mesh), the conversion of the same document leaves its buffers and
    counters in their initial state and raises the no-geometry error. *)
Theorem inspection_without_3d (doc : Document) :
  has_3d (modelspace doc) = false ->
  extract_geometry doc init = (Some tt, init) /\
  dxf_to_stl_3dface doc = NoGeometry init.
Proof.
  intros H. unfold has_3d in H.
  destruct (contains (count_entities (modelspace doc)) "INSERT") eqn:Hi;
    [by repeat case_match|].
  destruct (contains (count_entities (modelspace doc)) "3DFACE") eqn:H3; [done|].
  assert (Hp : sum_list (polyface_weight <$> query_POLYLINE (modelspace doc)) = 0).
  { destruct (contains (count_entities (modelspace doc)) "POLYLINE") eqn:Hpl.
    - rewrite count_polyfaces_weight in H.
      destruct (Nat.ltb_spec 0 (sum_list (polyface_weight <$>
                                   query_POLYLINE (modelspace doc)))); [|lia].
      by repeat case_match.
    - apply contains_false in Hpl.
      pose proof (query_POLYLINE_count (modelspace doc)) as Hq. rewrite Hpl in Hq.
      destruct (query_POLYLINE (modelspace doc)); [done|simpl in Hq; lia]. }
  assert (E3 : query_3DFACE (modelspace doc) = []).
  { apply contains_false in H3.
    pose proof (query_3DFACE_count (modelspace doc)) as Hq. rewrite H3 in Hq.
    destruct (query_3DFACE (modelspace doc)); [done|simpl in Hq; lia]. }
  assert (Ei : query_INSERT (modelspace doc) = []).
  { apply contains_false in Hi.
    pose proof (query_INSERT_count (modelspace doc)) as Hq. rewrite Hi in Hq.
    destruct (query_INSERT (modelspace doc)); [done|simpl in Hq; lia]. }
  assert (E : extract_geometry doc init = (Some tt, init)).
  { rewrite extract_geometry_unguarded, E3, Ei. simpl.
    unfold mbind, M_bind, mret, M_ret. by apply unflagged_loop. }
  split; [done|]. unfold dxf_to_stl_3dface. by rewrite E.
Qed.

Lemma inspection_without_3d_witness :
  extract_geometry flat_doc init = (Some tt, init) /\
  dxf_to_stl_3dface flat_doc = NoGeometry init.
Proof. apply (inspection_without_3d flat_doc). reflexivity. Defined.

(** ** The batch conversion *)

Section BatchRun.

Import Batch.

Lemma split_by_success (results : list ConversionResult) :
  filter (fun r => success r = true) results
  ++ filter (fun r => success r = false) results ≡ₚ results.
Proof.
  induction results as [|r results IH]; [done|].
  rewrite !filter_cons. destruct (success r) eqn:E; simpl.
  - by constructor.
  - rewrite <- Permutation_middle. by constructor.
Qed.

Lemma convert_single_file_input env f verbose out :
  input_file (convert_single_file env (f, verbose, out)) = f.
Proof. unfold convert_single_file. by destruct (convert_dxf_to_stl env f _). Qed.

Lemma convert_single_file_shape env args :
  let r := convert_single_file env args in
  (success r = true /\ is_Some (output_file r) /\ error r = None) \/
  (success r = false /\ output_file r = None /\ is_Some (error r)).
Proof.
  destruct args as [[f verbose] out]. unfold convert_single_file.
  destruct (convert_dxf_to_stl env f _); simpl; [left|right]; eauto.
Qed.

Lemma run_pool_spec env verbose out files :
  input_file <$> ((run_pool env verbose out files).1 ++ (run_pool env verbose out files).2)
  ≡ₚ files /\
  Forall (fun r => success r = true /\ is_Some (output_file r) /\ error r = None)
         (run_pool env verbose out files).1 /\
  Forall (fun r => success r = false /\ output_file r = None /\ is_Some (error r))
         (run_pool env verbose out files).2.
Proof.
  unfold run_pool. simpl. split; [|split].
  - rewrite split_by_success, <- list_fmap_compose.
    rewrite (completion_order_perm env), <- list_fmap_compose.
    rewrite (list_fmap_ext _ id files); [by rewrite list_fmap_id|].
    intros i f _. simpl. apply (convert_single_file_input env f verbose out).
  - apply Forall_forall. intros r [Hs [a [-> _]]%list_elem_of_fmap]%list_elem_of_filter.
    destruct (convert_single_file_shape env a) as [H|(H & _)]; [done|].
    simpl in H. congruence.
  - apply Forall_forall. intros r [Hs [a [-> _]]%list_elem_of_fmap]%list_elem_of_filter.
    destruct (convert_single_file_shape env a) as [(H & _)|H]; [|done].
    simpl in H. congruence.
Qed.

Lemma batch_convert_run_pool env directory pattern skip verbose out :
  batch_convert env directory pattern skip verbose out
  = run_pool env verbose out (files_to_convert env directory pattern skip out).
Proof.
  unfold batch_convert, files_to_convert.
  destruct (find_dxf_files env directory pattern) as [|f files] eqn:E.
  - destruct skip; unfold run_pool; simpl.
    + by rewrite (proj1 (Permutation_nil_r _) (completion_order_perm env [])).
    + by rewrite (proj1 (Permutation_nil_r _) (completion_order_perm env [])).
  - destruct skip; [|done].
    destruct (filter _ (f :: files)) eqn:Ef; [|done].
    unfold run_pool; simpl.
    by rewrite (proj1 (Permutation_nil_r _) (completion_order_perm env [])).
Qed.

End BatchRun.

(** X12. A batch run reports every file that it has to convert (the files
    found, minus those removed by the skip test when [skip_existing] is set)
    exactly once, either in [successful], with [success] set and an output
    path, or in [failed], with [success] cleared and an error text, in
    whatever order the pool returns the results.  No skipped file is
    reported, and the exit status is 0 exactly when every file to convert is
    in [successful]. *)
Theorem batch_reports_each_file_once (env : Batch.Env) (directory pattern : string)
    (skip_existing verbose : bool) (output_dir : option string) :
  let todo := Batch.files_to_convert env directory pattern skip_existing output_dir in
  let successful :=
    (Batch.batch_convert env directory pattern skip_existing verbose output_dir).1 in
  let failed :=
    (Batch.batch_convert env directory pattern skip_existing verbose output_dir).2 in
  Batch.input_file <$> (successful ++ failed) ≡ₚ todo /\
  length successful + length failed = length todo /\
  Forall (fun r => Batch.success r = true /\ is_Some (Batch.output_file r)
                   /\ Batch.error r = None) successful /\
  Forall (fun r => Batch.success r = false /\ Batch.output_file r = None
                   /\ is_Some (Batch.error r)) failed /\
  (skip_existing = true ->
   forall r, r ∈ successful ++ failed ->
     Batch.should_skip_file env (Batch.input_file r) output_dir = false) /\
  (Batch.exit_status failed = 0 <-> length successful = length todo).
Proof.
  intros todo successful failed. subst successful failed.
  rewrite batch_convert_run_pool. fold todo.
  destruct (run_pool_spec env verbose output_dir todo) as (Hp & Hs & Hf).
  assert (Hlen : length (Batch.run_pool env verbose output_dir todo).1
                 + length (Batch.run_pool env verbose output_dir todo).2 = length todo).
  { rewrite <- length_app, <- (length_fmap Batch.input_file). by rewrite Hp. }
  split; [done|]. split; [done|]. split; [done|]. split; [done|]. split.
  - intros -> r Hr.
    assert (Hin : Batch.input_file r ∈ todo).
    { rewrite <- Hp. by apply list_elem_of_fmap_2. }
    unfold todo, Batch.files_to_convert in Hin.
    by apply list_elem_of_filter in Hin as [Hin _].
  - destruct ((Batch.run_pool env verbose output_dir todo).2); simpl in *;
      split; intros; try done; lia.
Qed.

Lemma batch_reports_each_file_once_witness :
  Batch.input_file <$> (Batch.batch_convert sample_env "data" "*.dxf" true false None).1
  = ["a.dxf"] /\
  Batch.input_file <$> (Batch.batch_convert sample_env "data" "*.dxf" true false None).2
  = ["c.dxf"] /\
  forall r,
    r ∈ (Batch.batch_convert sample_env "data" "*.dxf" true false None).1
        ++ (Batch.batch_convert sample_env "data" "*.dxf" true false None).2 ->
    Batch.should_skip_file sample_env (Batch.input_file r) None = false.
Proof.
  split; [reflexivity|]. split; [reflexivity|].
  pose proof (batch_reports_each_file_once sample_env "data" "*.dxf" true false None)
    as (_ & _ & _ & _ & H & _).
  apply H. reflexivity.
Defined.

(** ** The name of the STL file *)

Section Replace.

Lemma replace_absent old new s : occurs old s = false -> replace old new s = s.
Proof.
  unfold replace. induction s as [|c rest IH]; [done|].
  simpl. intros [H1 H2]%orb_false_iff.
  change (starts_with old (String c rest) = false) in H1. rewrite H1.
  by rewrite IH.
Qed.

Lemma starts_with_app old rest : starts_with old (old +:+ rest) = true.
Proof.
  induction old as [|a old IH]; simpl; [by destruct rest|].
  by rewrite Ascii.eqb_refl.
Qed.

Lemma replace_from_skip old new t rest :
  replace_from (String.length t) old new (t +:+ rest) = replace_from 0 old new rest.
Proof. induction t as [|a t IH]; simpl; [by destruct rest|done]. Qed.

Lemma replace_match a old' new rest :
  replace (String a old') new (String a old' +:+ rest)
  = new +:+ replace (String a old') new rest.
Proof.
  unfold replace. change (String a old' +:+ rest) with (String a (old' +:+ rest)).
  cbn [replace_from].
  change (String a (old' +:+ rest)) with (String a old' +:+ rest).
  rewrite starts_with_app. cbn [String.length]. rewrite Nat.sub_1_r. cbn [Nat.pred].
  by rewrite replace_from_skip.
Qed.

Lemma replace_unmatched_prefix a old' new pre rest :
  has_char a pre = false ->
  replace (String a old') new (pre +:+ rest) = pre +:+ replace (String a old') new rest.
Proof.
  unfold replace. induction pre as [|c pre IH]; [done|].
  simpl. intros [H1 H2]%orb_false_iff. rewrite H1. by rewrite IH.
Qed.

End Replace.



(** ** The download of the tiles *)

Section Strings.

Lemma has_char_app c a b : has_char c (a +:+ b) = has_char c a || has_char c b.
Proof. induction a as [|x a IH]; simpl; [done|]. by rewrite IH, orb_assoc. Qed.

Lemma append_empty_r s : s +:+ "" = s.
Proof.
  induction s as [|x s IH]; [done|].
  change (String x (s +:+ "") = String x s). by rewrite IH.
Qed.

Lemma append_assoc (a b c : string) : (a +:+ b) +:+ c = a +:+ b +:+ c.
Proof.
  induction a as [|x a IH]; [done|].
  change (String x ((a +:+ b) +:+ c) = String x (a +:+ b +:+ c)). by rewrite IH.
Qed.

Lemma has_char_replace_from c old new s : forall k,
  has_char c new = false -> has_char c s = false ->
  has_char c (replace_from k old new s) = false.
Proof.
  induction s as [|x s IH]; intros k Hn Hs; [done|].
  simpl in Hs. apply orb_false_iff in Hs as [Hx Hs].
  destruct k as [|k]; cbn [replace_from]; [|by apply IH].
  destruct (starts_with old (String x s)).
  - rewrite has_char_app, Hn. by apply IH.
  - simpl. rewrite Hx. by apply IH.
Qed.

Lemma split_from_no_sep sep s : forall cur,
  has_char sep cur = false ->
  Forall (fun seg => has_char sep seg = false) (split_from sep cur s).
Proof.
  induction s as [|c s IH]; intros cur Hcur; simpl.
  - by constructor.
  - destruct (Ascii.eqb c sep) eqn:E.
    + constructor; [done|]. by apply IH.
    + apply IH. rewrite has_char_app, Hcur. simpl.
      rewrite Ascii.eqb_sym, E. done.
Qed.

Lemma split_from_plain sep s : forall cur,
  has_char sep s = false -> split_from sep cur s = [cur +:+ s].
Proof.
  induction s as [|c s IH]; intros cur Hs; simpl.
  - by rewrite append_empty_r.
  - simpl in Hs. apply orb_false_iff in Hs as [Hc Hs].
    rewrite Ascii.eqb_sym, Hc. rewrite IH by done. by rewrite append_assoc.
Qed.

Lemma split_from_last sep pre stem : forall cur,
  has_char sep stem = false ->
  last (split_from sep cur (pre +:+ String sep stem)) = Some stem.
Proof.
  induction pre as [|c pre IH]; intros cur Hs; simpl.
  - rewrite Ascii.eqb_refl. by rewrite split_from_plain.
  - destruct (Ascii.eqb c sep).
    + rewrite last_cons. by rewrite IH.
    + by apply IH.
Qed.

End Strings.

Section Extensions.

Lemma replace_dotfree a old' new s :
  has_char a s = false -> replace (String a old') new s = s.
Proof.
  intros H. rewrite <- (append_empty_r s) at 1.
  rewrite (replace_unmatched_prefix a old' new s "" H). apply append_empty_r.
Qed.

Lemma replace_lower_parts parts tail :
  Forall (fun p => has_char "." p.1 = false /\ (p.2 = ".dxf" \/ p.2 = ".DXF")) parts ->
  has_char "." tail = false ->
  replace ".dxf" ".stl" (with_extensions parts tail)
  = with_extensions
      ((fun p => (p.1, if String.eqb p.2 ".dxf" then ".stl" else p.2)) <$> parts) tail.
Proof.
  intros Hp Ht. induction Hp as [|[stem ext] parts [Hs He] _ IH]; csimpl.
  - by apply replace_dotfree.
  - simpl in Hs, He.
    rewrite (replace_unmatched_prefix "." "dxf" ".stl" stem _ Hs).
    destruct He as [->| ->]; simpl.
    + rewrite (replace_match "." "dxf" ".stl"). by rewrite IH.
    + change (replace ".dxf" ".stl" (".DXF" +:+ with_extensions parts tail))
        with (".DXF" +:+ replace ".dxf" ".stl" (with_extensions parts tail)).
      by rewrite IH.
Qed.

Lemma replace_upper_parts parts tail :
  Forall (fun p => has_char "." p.1 = false /\ (p.2 = ".stl" \/ p.2 = ".DXF")) parts ->
  has_char "." tail = false ->
  replace ".DXF" ".stl" (with_extensions parts tail)
  = with_extensions ((fun p => (p.1, ".stl")) <$> parts) tail.
Proof.
  intros Hp Ht. induction Hp as [|[stem ext] parts [Hs He] _ IH]; csimpl.
  - by apply replace_dotfree.
  - simpl in Hs, He.
    rewrite (replace_unmatched_prefix "." "DXF" ".stl" stem _ Hs).
    destruct He as [->| ->]; simpl.
    + change (replace ".DXF" ".stl" (".stl" +:+ with_extensions parts tail))
        with (".stl" +:+ replace ".DXF" ".stl" (with_extensions parts tail)).
      by rewrite IH.
    + rewrite (replace_match "." "DXF" ".stl"). by rewrite IH.
Qed.

End Extensions.

(** X13. The STL name that the skip test and the batch output use.  In a
    name made of dot-free stems, each followed by ".dxf" or ".DXF", and a
    dot-free tail, every one of these extensions is replaced by ".stl", not
    only the first or the last.  A name in which neither ".dxf" nor ".DXF"
    occurs (another extension, or ".Dxf") is left as it is, so that without
    an output directory the skip test looks at the input file itself. *)
Theorem stl_name_spec :
  (forall (parts : list (string * string)) (tail : string),
      Forall (fun p => has_char "." p.1 = false /\ (p.2 = ".dxf" \/ p.2 = ".DXF")) parts ->
      has_char "." tail = false ->
      Batch.stl_name (with_extensions parts tail)
      = with_extensions ((fun p => (p.1, ".stl")) <$> parts) tail) /\
  (forall name : string,
      occurs ".dxf" name = false -> occurs ".DXF" name = false ->
      Batch.stl_name name = name) /\
  (forall (env : Batch.Env) (dxf_file : string),
      occurs ".dxf" dxf_file = false -> occurs ".DXF" dxf_file = false ->
      Batch.should_skip_file env dxf_file None = Batch.os_path_exists env dxf_file) /\
  (forall stem : string,
      has_char "." stem = false ->
      Batch.stl_name (stem +:+ ".dxf") = stem +:+ ".stl" /\
      Batch.stl_name (stem +:+ ".DXF") = stem +:+ ".stl").
Proof.
  assert (H0 : forall (parts : list (string * string)) (tail : string),
      Forall (fun p => has_char "." p.1 = false /\ (p.2 = ".dxf" \/ p.2 = ".DXF")) parts ->
      has_char "." tail = false ->
      Batch.stl_name (with_extensions parts tail)
      = with_extensions ((fun p => (p.1, ".stl")) <$> parts) tail).
  { intros parts tail Hp Ht. unfold Batch.stl_name.
    rewrite (replace_lower_parts parts tail Hp Ht).
    assert (Hq : Forall (fun p => has_char "." p.1 = false /\ (p.2 = ".stl" \/ p.2 = ".DXF"))
                   ((fun p => (p.1, if String.eqb p.2 ".dxf" then ".stl" else p.2))
                      <$> parts)).
    { clear Ht. induction Hp as [|[stem ext] parts [Hs He] _ IH]; csimpl;
        constructor; try done.
      simpl in *. split; [done|]. destruct He as [->| ->]; simpl; auto. }
    rewrite (replace_upper_parts _ tail Hq Ht).
    by rewrite <- list_fmap_compose. }
  assert (H1 : forall name : string,
      occurs ".dxf" name = false -> occurs ".DXF" name = false ->
      Batch.stl_name name = name).
  { intros name Ha Hb. unfold Batch.stl_name.
    rewrite (replace_absent ".dxf" ".stl" name Ha). by apply replace_absent. }
  split; [done|]. split; [done|]. split.
  - intros env f Ha Hb. unfold Batch.should_skip_file. simpl. by rewrite H1.
  - intros stem Hs. split.
    + apply (H0 [(stem, ".dxf")] "" ); [|done].
      constructor; [|constructor]. simpl. auto.
    + apply (H0 [(stem, ".DXF")] "" ); [|done].
      constructor; [|constructor]. simpl. auto.
Qed.

Lemma stl_name_spec_witness :
  Batch.stl_name (with_extensions [("a", ".dxf"); ("", ".dxf"); ("_b", ".DXF")] "")
  = with_extensions [("a", ".stl"); ("", ".stl"); ("_b", ".stl")] "" /\
  Batch.stl_name "Trn_104000_193000.dwg" = "Trn_104000_193000.dwg".
Proof.
  split.
  - apply (proj1 stl_name_spec [("a", ".dxf"); ("", ".dxf"); ("_b", ".DXF")] "");
      [|reflexivity].
    repeat (constructor; [split; [reflexivity|auto]|]). constructor.
  - apply (proj1 (proj2 stl_name_spec)); reflexivity.
Defined.

(** X14. The directory name of a tile, made from the last "/"-separated
    piece of its URL with every ".zip" removed, never contains a "/".  For a
    URL that ends in [/stem.zip], where the stem has neither a "/" nor a
    ".", the directory name is the stem.  The name is not checked any
    further: a URL that ends in [/...zip] gives the name [..], and a URL
    that ends in [/.zip] or in [/] gives the empty name. *)
Theorem tile_directory_name :
  (forall url : string, has_char "/" (Download.dir_name url) = false) /\
  (forall base stem : string,
      has_char "/" stem = false -> has_char "." stem = false ->
      Download.dir_name (base +:+ "/" +:+ stem +:+ ".zip") = stem) /\
  Download.dir_name "https://host/files/...zip" = ".." /\
  Download.dir_name "https://host/files/.zip" = EmptyString /\
  Download.dir_name "https://host/files/" = EmptyString.
Proof.
  split; [|split; [|by vm_compute]].
  - intros url. unfold Download.dir_name, replace.
    apply has_char_replace_from; [done|].
    pose proof (split_from_no_sep "/" url "" eq_refl) as H.
    unfold split. destruct (last (split_from "/" "" url)) as [seg|] eqn:E; [|done].
    simpl. rewrite Forall_forall in H. apply H. by apply last_Some_elem_of.
  - intros base stem Hs Hd. unfold Download.dir_name, split.
    change ("/" +:+ stem +:+ ".zip") with (String "/" (stem +:+ ".zip")).
    rewrite split_from_last by (by rewrite has_char_app, Hs).
    simpl. rewrite (replace_unmatched_prefix "." "zip" "" stem ".zip" Hd).
    change (replace ".zip" "" ".zip") with "". apply append_empty_r.
Qed.

Lemma tile_directory_name_witness :
  Download.dir_name ("https://host/files" +:+ "/" +:+ "Dwg_103000_190000_10_2_N_2013" +:+ ".zip")
  = "Dwg_103000_190000_10_2_N_2013".
Proof. apply (proj1 (proj2 tile_directory_name)); reflexivity. Defined.

Lemma download_loop_count {W : Type} (env : Download.Env W) output_dir tiles :
  forall successful failed w,
    (Download.download_loop env tiles output_dir successful failed w).1.1
    + (Download.download_loop env tiles output_dir successful failed w).1.2
    = successful + failed + length tiles.
Proof.
  induction tiles as [|tile tiles IH]; intros s f w; simpl; [lia|].
  destruct (Download.download_and_extract_tile env tile output_dir w) as [[] w'];
    rewrite IH; lia.
Qed.

(** X15. The two counters returned by the download add up to the number of
    tiles processed.  Without a limit, and with the limit 0, these are all
    the tiles of the index; with a positive limit [n] the first [n] (or all,
    if there are fewer); with a negative limit [-n] all but the last [n].
    The [skip_existing] argument has no effect on the result. *)
Theorem download_account {W : Type} (env : Download.Env W) (tiles : list Download.Tile)
    (output_dir : string) (skip_existing : bool) (w : W) :
  (forall limit,
      limit = None \/ limit = Some 0%Z ->
      let r := Download.download_all_tiles env tiles output_dir limit skip_existing w in
      r.1.1 + r.1.2 = length tiles) /\
  (forall n : Z,
      (0 < n)%Z ->
      let r := Download.download_all_tiles env tiles output_dir (Some n) skip_existing w in
      r.1.1 + r.1.2 = Nat.min (Z.to_nat n) (length tiles)) /\
  (forall n : Z,
      (n < 0)%Z ->
      let r := Download.download_all_tiles env tiles output_dir (Some n) skip_existing w in
      r.1.1 + r.1.2 = length tiles - Z.to_nat (- n)) /\
  (forall limit,
      Download.download_all_tiles env tiles output_dir limit skip_existing w
      = Download.download_all_tiles env tiles output_dir limit (negb skip_existing) w).
Proof.
  split; [|split; [|split]].
  - intros limit [->| ->] r; subst r; unfold Download.download_all_tiles; simpl;
      by rewrite download_loop_count.
  - intros n Hn r. subst r. unfold Download.download_all_tiles, slice_to.
    destruct (Z.eqb_spec n 0); [lia|]. destruct (Z.leb_spec 0 n); [|lia].
    rewrite download_loop_count, length_take. lia.
  - intros n Hn r. subst r. unfold Download.download_all_tiles, slice_to.
    destruct (Z.eqb_spec n 0); [lia|]. destruct (Z.leb_spec 0 n); [lia|].
    rewrite download_loop_count, length_take. lia.
  - done.
Qed.

Lemma download_account_witness :
  (let r := Download.download_all_tiles sample_download_env sample_tiles "data"
              (Some 0%Z) true [] in
   r.1.1 + r.1.2 = length sample_tiles) /\
  (let r := Download.download_all_tiles sample_download_env sample_tiles "data"
              (Some 2%Z) true [] in
   r.1.1 + r.1.2 = Nat.min (Z.to_nat 2) (length sample_tiles)) /\
  (let r := Download.download_all_tiles sample_download_env sample_tiles "data"
              (Some (-1)%Z) true [] in
   r.1.1 + r.1.2 = length sample_tiles - Z.to_nat (- (-1))).
Proof.
  split; [|split].
  - apply (proj1 (download_account sample_download_env sample_tiles "data" true [])).
    by right.
  - apply (proj1 (proj2 (download_account sample_download_env sample_tiles "data" true []))).
    lia.
  - apply (proj1 (proj2 (proj2
             (download_account sample_download_env sample_tiles "data" true [])))).
    lia.
Defined.

(** ** The mesh that the face loops build *)

Section FaceMesh.

Lemma face_body_mesh (collected : option (list vertex)) (s : St) :
  (forall vs, collected = Some vs -> length vs <= 4) ->
  exists s',
    try_except (vertices ← lift collected; add_face vertices)
               (modify incr_invalid_3dface) s = (Some tt, s') /\
    all_vertices s' = all_vertices s ++ accepted_corners collected /\
    all_faces s' = all_faces s
                   ++ fan (length (all_vertices s)) (length (accepted_corners collected)) /\
    valid_3dface s' = valid_3dface s + accepted_count [accepted_corners collected].
Proof.
  intros Hlen. unfold try_except, mbind, M_bind, lift, accepted_corners.
  destruct collected as [vs|].
  - specialize (Hlen vs eq_refl).
    destruct (Nat.leb_spec 3 (length (dedup vs))) as [H3|H3].
    + destruct (add_face_accept vs s Hlen H3) as (s' & E & Hv & Hf & _ & Hc & _).
      exists s'. rewrite E. split; [done|]. split; [done|]. split.
      * destruct Hf as [[El ->]|[El ->]]; by rewrite El.
      * rewrite Hc. unfold accepted_count. rewrite filter_cons.
        destruct (dedup vs); [simpl in H3; lia|]. by rewrite decide_True.
    + destruct (add_face_reject vs s) as (s' & E & Hv & Hf & _ & Hc & _); [lia|].
      exists s'. rewrite E. split; [done|]. rewrite Hv, Hf, Hc. simpl.
      rewrite !app_nil_r.
      split; [done|]. split; [done|]. unfold accepted_count. simpl. lia.
  - eexists. split; [reflexivity|]. simpl. rewrite !app_nil_r.
    split; [done|]. split; [done|]. unfold accepted_count. simpl. lia.
Qed.

Lemma accepted_count_cons u l :
  accepted_count (u :: l) = accepted_count [u] + accepted_count l.
Proof.
  unfold accepted_count. rewrite !filter_cons. by destruct (decide (u <> [])).
Qed.

Lemma face_loop_mesh (corners : Face.dxf -> option (list vertex))
    (body : Face.dxf -> M unit) (l : list Face.dxf) :
  (forall e vs, corners e = Some vs -> length vs <= 4) ->
  (forall e s, body e s
               = try_except (vertices ← lift (corners e); add_face vertices)
                            (modify incr_invalid_3dface) s) ->
  forall s, exists s',
    for_each l body s = (Some tt, s') /\
    all_vertices s'
    = all_vertices s ++ concat ((fun e => accepted_corners (corners e)) <$> l) /\
    all_faces s'
    = all_faces s ++ fans (length (all_vertices s))
                          ((fun e => accepted_corners (corners e)) <$> l) /\
    valid_3dface s'
    = valid_3dface s + accepted_count ((fun e => accepted_corners (corners e)) <$> l).
Proof.
  intros Hlen Hbody. induction l as [|e l IH]; intros s; csimpl.
  - exists s. rewrite !app_nil_r. repeat split; try done.
  - destruct (face_body_mesh (corners e) s (Hlen e)) as (s1 & E1 & Hv1 & Hf1 & Hc1).
    destruct (IH s1) as (s2 & E2 & Hv2 & Hf2 & Hc2).
    exists s2. split; [unfold mbind, M_bind; by rewrite Hbody, E1|].
    rewrite (accepted_count_cons (accepted_corners (corners e))
               ((fun e => accepted_corners (corners e)) <$> l)).
    rewrite Hv2, Hf2, Hc2, Hv1, Hf1, Hc1, length_app, <- !app_assoc.
    repeat split; try done. lia.
Qed.

End FaceMesh.

(** X16. The mesh built by the direct-face loop, and by the block loop for
    one INSERT with a defined block: the vertices appended are the unique
    corners of the accepted faces, face after face in document order, with no
    merging between faces; the triangles appended are the fans on these
    corners at the positions where they are stored; the valid counter grows
    by the number of accepted faces. *)
Theorem face_loop_builds_mesh :
  (forall (doc : Document) (s : St),
      let corner_lists :=
        (fun e => accepted_corners (collect_corners (Face.attrs e) []))
          <$> query_3DFACE (modelspace doc) in
      exists s',
        direct_pipeline doc s = (Some tt, s') /\
        all_vertices s' = all_vertices s ++ concat corner_lists /\
        all_faces s' = all_faces s ++ fans (length (all_vertices s)) corner_lists /\
        valid_3dface s' = valid_3dface s + accepted_count corner_lists) /\
  (forall (doc : Document) (insert : Insert.t) (block : list entity) (s : St),
      blocks doc !! Insert.name insert = Some block ->
      let corner_lists :=
        (fun e => accepted_corners
                    (collect_block_corners (Insert.matrix44 insert) (Face.attrs e) []))
          <$> query_3DFACE block in
      exists s',
        process_insert doc insert s = (Some tt, s') /\
        all_vertices s' = all_vertices s ++ concat corner_lists /\
        all_faces s' = all_faces s ++ fans (length (all_vertices s)) corner_lists /\
        valid_3dface s' = valid_3dface s + accepted_count corner_lists).
Proof.
  split.
  - intros doc s. apply (face_loop_mesh (fun e => collect_corners (Face.attrs e) [])).
    + intros e vs H. apply collect_corners_length in H. simpl in H. lia.
    + done.
  - intros doc entity block s Hb. unfold process_insert. rewrite Hb.
    apply (face_loop_mesh
             (fun e => collect_block_corners (Insert.matrix44 entity) (Face.attrs e) [])).
    + intros e vs H. apply collect_block_corners_length in H. simpl in H. lia.
    + done.
Qed.

Lemma face_loop_builds_mesh_witness :
  exists s',
    process_insert scenario_B (Insert.mk "B" (translate 100 200 0)) init = (Some tt, s') /\
    all_vertices s' = [(100, 200, 0)%float; (101, 200, 0)%float; (100, 201, 0)%float] /\
    all_faces s' = [[0; 1; 2]] /\
    valid_3dface s' = 1.
Proof.
  exact (proj2 face_loop_builds_mesh scenario_B (Insert.mk "B" (translate 100 200 0))
           [E3DFACE tri_face] init eq_refl).
Defined.

(** X17. The conversion and the valid face counter.  If at least one face
    is valid, the conversion hands on a mesh, with at least three vertices
    and one triangle.  If no face and no polyface mesh is counted as valid,
    both buffers are empty and the no-geometry error is raised.  Hence the
    error is only ever raised with a valid face counter of 0. *)
Theorem conversion_needs_valid_face (doc : Document) :
  exists s,
    extract_geometry doc init = (Some tt, s) /\
    (0 < valid_3dface s ->
     dxf_to_stl_3dface doc = Mesh (all_vertices s) (all_faces s) s /\
     3 <= length (all_vertices s) /\ 1 <= length (all_faces s)) /\
    (valid_3dface s = 0 -> valid_polyline s = 0 ->
     dxf_to_stl_3dface doc = NoGeometry s /\
     all_vertices s = [] /\ all_faces s = []) /\
    (forall s', dxf_to_stl_3dface doc = NoGeometry s' -> valid_3dface s' = 0).
Proof.
  destruct (direct_pipeline_visited doc init) as (s0 & E0 & H0).
  assert (exists s', block_pipeline doc s0 = (Some tt, s') /\
            faces_visited (sum_list (block_faces doc <$> query_INSERT (modelspace doc)))
                          s0 s') as (s1 & E1 & H1).
  { rewrite block_pipeline_unguarded. apply insert_loop_visited. }
  pose proof (faces_visited_trans _ _ _ _ _ H0 H1) as Hf.
  destruct (polyface_pipeline_visited doc s1) as (s & E & Hp).
  assert (Eg : extract_geometry doc init = (Some tt, s)).
  { unfold extract_geometry, mbind, M_bind. by rewrite E0, E1. }
  destruct Hf as (a1 & a2 & a3 & a4 & a5 & a6 & a7 & a8 & a9 & a10).
  destruct Hp as (b1 & b2 & b3 & b4 & b5 & b6 & b7 & b8).
  apply prefix_length in b5, b6. simpl in *.
  assert (Hmesh : 0 < valid_3dface s ->
     dxf_to_stl_3dface doc = Mesh (all_vertices s) (all_faces s) s /\
     3 <= length (all_vertices s) /\ 1 <= length (all_faces s)).
  { intros Hv. unfold dxf_to_stl_3dface. rewrite Eg.
    destruct (all_vertices s) as [|v vs] eqn:Ev; [simpl in *; lia|].
    destruct (all_faces s) as [|f fs] eqn:Efs; [simpl in *; lia|].
    simpl. split; [done|]. simpl in *. lia. }
  exists s. split; [done|]. split; [done|]. split.
  - intros Hv Hpv.
    assert (Es : s = s1).
    { rewrite polyface_pipeline_unguarded in E.
      rewrite unflagged_loop in E; [by injection E|].
      fold (polyface_entities doc). lia. }
    subst s.
    assert (Hv0 : all_vertices s1 = []) by (apply length_zero_iff_nil; lia).
    assert (Hf0 : all_faces s1 = []) by (apply length_zero_iff_nil; lia).
    unfold dxf_to_stl_3dface. rewrite Eg, Hv0. done.
  - intros s' Hn. destruct (decide (0 < valid_3dface s)) as [Hv|Hv].
    + destruct (Hmesh Hv) as [Em _]. rewrite Em in Hn. discriminate.
    + unfold dxf_to_stl_3dface in Hn. rewrite Eg in Hn.
      destruct (_ || _); [|discriminate]. injection Hn as <-. lia.
Qed.

Lemma conversion_needs_valid_face_witness :
  dxf_to_stl_3dface scenario_C = NoGeometry (incr_invalid_3dface init) /\
  (exists s, dxf_to_stl_3dface scenario_B = Mesh (all_vertices s) (all_faces s) s).
Proof.
  split.
  - destruct (conversion_needs_valid_face scenario_C) as (s & E & _ & H & _).
    vm_compute in E. injection E as <-. apply H; reflexivity.
  - destruct (conversion_needs_valid_face scenario_B) as (s & E & H & _).
    vm_compute in E. injection E as <-. eexists. apply H. simpl. lia.
Defined.
